(** * Stock search API (stock_api.py): a shallow embedding and its properties

    The development follows [src/stock_api.py]: the text normalisers, the
    price parser, the SQL builder, the fuzzy fallback, the post filter and
    the ranker of the [/search] endpoint.

    Python [str] values are sequences of Unicode code points and are
    modelled as [list N]; Python [int] is unbounded and is modelled as [Z];
    Python [float] is IEEE binary64 and is modelled by Rocq's primitive
    floats. *)

From Stdlib Require Import Ascii String DecimalString.
From Stdlib Require Import List Bool NArith ZArith Lia.
From Stdlib Require Import Floats Sorted Permutation.
Import ListNotations.

Set Warnings "-inexact-float".

Open Scope N_scope.

(* ================================================================== *)
(** ** Text *)
(* ================================================================== *)

Definition text := list N.

(** An ASCII literal as a sequence of code points. *)
Definition txt (s : string) : text :=
  map N_of_ascii (list_ascii_of_string s).

Fixpoint text_eqb (a b : text) : bool :=
  match a, b with
  | [], [] => true
  | x :: a', y :: b' => (x =? y) && text_eqb a' b'
  | _, _ => false
  end.

Fixpoint texts_eqb (a b : list text) : bool :=
  match a, b with
  | [], [] => true
  | x :: a', y :: b' => text_eqb x y && texts_eqb a' b'
  | _, _ => false
  end.

(** Python truthiness of a [str]: non-empty. *)
Definition nonempty {A} (s : list A) : bool :=
  match s with [] => false | _ :: _ => true end.

Fixpoint dropWhile {A} (p : A -> bool) (l : list A) : list A :=
  match l with
  | [] => []
  | x :: l' => if p x then dropWhile p l' else l
  end.

Fixpoint is_prefix (p s : text) : bool :=
  match p, s with
  | [], _ => true
  | _ :: _, [] => false
  | x :: p', y :: s' => (x =? y) && is_prefix p' s'
  end.

(** [k in q] on Python strings: substring test. *)
Fixpoint contains (k q : text) : bool :=
  is_prefix k q || match q with [] => false | _ :: q' => contains k q' end.

(** [sep.join(parts)]. *)
Fixpoint join (sep : text) (parts : list text) : text :=
  match parts with
  | [] => []
  | [p] => p
  | p :: rest => p ++ sep ++ join sep rest
  end.

(* ------------------------------------------------------------------ *)
(** *** The Unicode tables Python consults *)

(** Code points for which [str.isspace] holds; the same set is matched by
    [\s] in a [str] pattern and removed by [str.strip()]. *)
Definition whitespace_table : list N :=
  [ 0x9; 0xA; 0xB; 0xC; 0xD; 0x1C; 0x1D; 0x1E; 0x1F; 0x20; 0x85; 0xA0;
    0x1680; 0x2000; 0x2001; 0x2002; 0x2003; 0x2004; 0x2005; 0x2006;
    0x2007; 0x2008; 0x2009; 0x200A; 0x2028; 0x2029; 0x202F; 0x205F;
    0x3000 ].

Definition is_space (c : N) : bool := existsb (N.eqb c) whitespace_table.

(** The code point of digit zero of every decimal-digit block (general
    category Nd, Unicode 14); each block is ten consecutive code points.
    [\d] in a [str] pattern matches exactly these digits and [int()] reads
    them with their decimal value. *)
Definition digit_zero_table : list N :=
  [ 0x30; 0x660; 0x6F0; 0x7C0; 0x966; 0x9E6; 0xA66; 0xAE6; 0xB66; 0xBE6;
    0xC66; 0xCE6; 0xD66; 0xDE6; 0xE50; 0xED0; 0xF20; 0x1040; 0x1090;
    0x17E0; 0x1810; 0x1946; 0x19D0; 0x1A80; 0x1A90; 0x1B50; 0x1BB0;
    0x1C40; 0x1C50; 0xA620; 0xA8D0; 0xA900; 0xA9D0; 0xA9F0; 0xAA50;
    0xABF0; 0xFF10; 0x104A0; 0x10D30; 0x11066; 0x110F0; 0x11136; 0x111D0;
    0x112F0; 0x11450; 0x114D0; 0x11650; 0x116C0; 0x11730; 0x118E0;
    0x11950; 0x11C50; 0x11D50; 0x11DA0; 0x16A60; 0x16AC0; 0x16B50;
    0x1D7CE; 0x1D7D8; 0x1D7E2; 0x1D7EC; 0x1D7F6; 0x1E140; 0x1E2F0;
    0x1E950; 0x1FBF0 ].

Fixpoint digit_in (zeros : list N) (c : N) : option N :=
  match zeros with
  | [] => None
  | z :: zs => if (z <=? c) && (c <? z + 10) then Some (c - z)
               else digit_in zs c
  end.

Definition digit_value (c : N) : option N := digit_in digit_zero_table c.

Definition is_digit (c : N) : bool :=
  match digit_value c with Some _ => true | None => false end.

(* ------------------------------------------------------------------ *)
(** *** Python string methods *)

(** [s.replace(a, b)] for a one-character [a]. *)
Definition replace_char (a : N) (b : text) (s : text) : text :=
  flat_map (fun c => if c =? a then b else [c]) s.

Definition lstrip (s : text) : text := dropWhile is_space s.
Definition rstrip (s : text) : text := rev (dropWhile is_space (rev s)).

(** [s.strip()]. *)
Definition strip (s : text) : text := rstrip (lstrip s).

(** [re.sub(r"\s+", " ", s)]: every maximal run of whitespace becomes one
    space.  [in_run] tells that the previous character was whitespace. *)
Fixpoint sub_spaces (in_run : bool) (s : text) : text :=
  match s with
  | [] => []
  | c :: s' =>
      if is_space c
      then (if in_run then sub_spaces true s' else 0x20 :: sub_spaces true s')
      else c :: sub_spaces false s'
  end.

Definition collapse_spaces (s : text) : text := sub_spaces false s.

(** [int(s)] on a string made of decimal digits only. *)
Definition int_of_digits (s : text) : Z :=
  fold_left
    (fun acc c => match digit_value c with
                  | Some d => (10 * acc + Z.of_N d)%Z
                  | None => acc
                  end)
    s 0%Z.

(** The default of [sys.get_int_max_str_digits()]: [int()] raises a
    [ValueError] on a string with more decimal digits than this. *)
Definition int_max_str_digits : nat := 4300.

(** [int(s)] inside [try]/[except] on a non-empty string of decimal
    digits; [None] stands for the [ValueError] beyond the digit limit. *)
Definition int_of_digit_text (s : text) : option Z :=
  if (length s <=? int_max_str_digits)%nat
  then Some (int_of_digits s)
  else None.

(** The whitespace [int()] skips around a number: the Unicode whitespace
    but for the separators U+001C to U+001F, which [int()] rejects. *)
Definition is_int_space (c : N) : bool :=
  is_space c && negb ((0x1C <=? c) && (c <=? 0x1F)).

Definition int_strip (s : text) : text :=
  rev (dropWhile is_int_space (rev (dropWhile is_int_space s))).

(** Digits with single underscores between them, as [int()] accepts. *)
Fixpoint digits_with_underscores (acc : Z) (after_digit : bool) (s : text)
  : option Z :=
  match s with
  | [] => if after_digit then Some acc else None
  | c :: r =>
      match digit_value c with
      | Some d => digits_with_underscores (10 * acc + Z.of_N d)%Z true r
      | None =>
          if (c =? 0x5F) && after_digit
          then digits_with_underscores acc false r
          else None
      end
  end.

(** [int(s)] for an arbitrary [str]: surrounding whitespace, an optional
    sign, then digits, at most [int_max_str_digits] of them (underscores
    and the sign do not count); [None] stands for the [ValueError]. *)
Definition int_of_text (s : text) : option Z :=
  let t := int_strip s in
  let '(neg, body) :=
    match t with
    | 0x2B :: r => (false, r)
    | 0x2D :: r => (true, r)
    | _ => (false, t)
    end in
  if (length (filter is_digit body) <=? int_max_str_digits)%nat then
    match digits_with_underscores 0%Z false body with
    | Some n => Some (if neg then (- n)%Z else n)
    | None => None
    end
  else None.

(** [int(f)] for a float: truncation towards zero; [None] stands for the
    [ValueError] (NaN) or [OverflowError] (infinity). *)
Definition int_of_float (f : float) : option Z :=
  match Prim2SF f with
  | S754_zero _ => Some 0%Z
  | S754_finite s m e =>
      let v := if (0 <=? e)%Z then (Z.pos m * 2 ^ e)%Z
               else (Z.pos m / 2 ^ (- e))%Z in
      Some (if s then (- v)%Z else v)
  | S754_infinity _ => None
  | S754_nan => None
  end.

(* ================================================================== *)
(** ** Normalization helpers *)
(* ================================================================== *)

(** The [mapping] dict of [normalize_persian], in insertion order.  The
    source lists ZWNJ twice (escaped and literal); a dict keeps one entry.
    Arabic yeh and kaf become Persian, ZWNJ becomes a space, tatweel goes. *)
Definition mapping : list (N * text) :=
  [ (0x64A, [0x6CC]); (0x643, [0x6A9]); (0x200C, [0x20]); (0x640, []) ].

Definition apply_mapping (s : text) : text :=
  fold_left (fun acc ab => replace_char (fst ab) (snd ab) acc) mapping s.

(** [normalize_persian] on a [str]. *)
Definition normalize_persian (s : text) : text :=
  strip (collapse_spaces (apply_mapping s)).

(** [normalize_persian] on a nullable text field: [None] gives [""]. *)
Definition normalize_persian_opt (v : option text) : text :=
  match v with
  | None => []
  | Some s => normalize_persian s
  end.

(** [re.sub(r"[؟?]", "", text)]. *)
Definition drop_question_marks (s : text) : text :=
  filter (fun c => negb ((c =? 0x61F) || (c =? 0x3F))) s.

Definition normalize_query (s : text) : text :=
  if nonempty s
  then normalize_persian (collapse_spaces (drop_question_marks (strip s)))
  else [].

(** [like_pattern]. *)
Definition like_pattern (term : text) : text := [0x25] ++ term ++ [0x25].

(* ================================================================== *)
(** ** Store values and the price parser *)
(* ================================================================== *)

(** A value of a dynamically typed SQLite column as Python receives it. *)
Inductive value :=
| VNull
| VInt (z : Z)
| VReal (f : float)
| VText (s : text).

(** [_price_digits.sub("", s)] with [_price_digits = [^\d]+]. *)
Definition drop_non_digits (s : text) : text := filter is_digit s.

(** [parse_price].  Both conversions run inside [try]/[except], so a
    float that is not finite and a digit string beyond the limit of
    [int()] give [None]. *)
Definition parse_price (v : value) : option Z :=
  match v with
  | VNull => None
  | VInt z => Some z
  | VReal f => int_of_float f
  | VText s0 =>
      let s := strip (replace_char 0x20 []
                        (replace_char 0x66C [] (replace_char 0x2C [] s0))) in
      let s := drop_non_digits s in
      if nonempty s then int_of_digit_text s else None
  end.

(** The quantity conversion of [search]:
    [int(d.get("qty")) if d.get("qty") is not None else None], with every
    exception turned into [None]. *)
Definition parse_qty (v : value) : option Z :=
  match v with
  | VNull => None
  | VInt z => Some z
  | VReal f => int_of_float f
  | VText s => int_of_text s
  end.

(* ================================================================== *)
(** ** The catalog store *)
(* ================================================================== *)

(** The columns a WHERE clause can mention.  [to_sql] of pandas declares
    each of them TEXT, so a field holds NULL or a text. *)
Inductive column :=
| COL_NAME | COL_CAT | COL_AUTHOR | COL_TRANSLATOR
| COL_PUBLISHER | COL_GROUP | COL_GROUPFAMILY.

Definition column_eqb (a b : column) : bool :=
  match a, b with
  | COL_NAME, COL_NAME | COL_CAT, COL_CAT | COL_AUTHOR, COL_AUTHOR
  | COL_TRANSLATOR, COL_TRANSLATOR | COL_PUBLISHER, COL_PUBLISHER
  | COL_GROUP, COL_GROUP | COL_GROUPFAMILY, COL_GROUPFAMILY => true
  | _, _ => false
  end.

(** The column names of the [products] table. *)
Definition column_name (c : column) : text :=
  match c with
  | COL_NAME => [0x646; 0x627; 0x645; 0x20; 0x643; 0x62A; 0x627; 0x628]
  | COL_CAT => [0x645; 0x634; 0x62E; 0x635; 0x647; 0x20; 0x34]
  | COL_AUTHOR => [0x645; 0x648; 0x644; 0x641]
  | COL_TRANSLATOR => [0x645; 0x62A; 0x631; 0x62C; 0x645]
  | COL_PUBLISHER => [0x646; 0x627; 0x634; 0x631]
  | COL_GROUP => [0x6AF; 0x631; 0x648; 0x647]
  | COL_GROUPFAMILY => txt "GroupFamily"
  end.

Definition COL_QTY : text := [0x62A; 0x639; 0x62F; 0x627; 0x62F].
Definition COL_PRICE : text :=
  [0x67E; 0x634; 0x62A; 0x200C; 0x62C; 0x644; 0x62F].
Definition COL_SYS : text :=
  [0x643; 0x62F; 0x633; 0x64A; 0x633; 0x62A; 0x645].
Definition TABLE_NAME : text := txt "products".

(** A row as the SELECT of [build_sql] returns it, keyed by the aliases.
    Quantity, price and system code keep SQLite's dynamic typing. *)
Record Row := {
  r_name : option text;
  r_qty : value;
  r_price : value;
  r_category_code : option text;
  r_author_or_type_or_age : option text;
  r_translator_or_playtime : option text;
  r_publisher_or_brand : option text;
  r_group_main : option text;
  r_system_code : value;
  r_groupfamily : option text
}.

Definition field (r : Row) (c : column) : option text :=
  match c with
  | COL_NAME => r_name r
  | COL_CAT => r_category_code r
  | COL_AUTHOR => r_author_or_type_or_age r
  | COL_TRANSLATOR => r_translator_or_playtime r
  | COL_PUBLISHER => r_publisher_or_brand r
  | COL_GROUP => r_group_main r
  | COL_GROUPFAMILY => r_groupfamily r
  end.

(** One entry of the [where] list of [build_sql]; [?] placeholders take
    their values from the parameter list, in order. *)
Inductive cond :=
| IsNotNull (c : column)          (* "c" IS NOT NULL *)
| TrimNotEmpty (c : column)       (* TRIM("c") != "" *)
| EqParam (c : column)            (* "c" = ? *)
| InParams (c : column) (n : nat) (* "c" IN (?, ..., ?) *)
| Like (c : column)               (* "c" LIKE ? *)
| AnyLike (cs : list column)      (* ("c1" LIKE ? OR ... OR "cn" LIKE ?) *)
| NullOrNotLike (c : column).     (* ("c" IS NULL OR "c" NOT LIKE ?) *)

(** Number of placeholders of an entry. *)
Definition arity (c : cond) : nat :=
  match c with
  | IsNotNull _ | TrimNotEmpty _ => 0%nat
  | EqParam _ | Like _ | NullOrNotLike _ => 1%nat
  | InParams _ n => n
  | AnyLike cs => length cs
  end.

Definition quoted (s : text) : text := [0x22] ++ s ++ [0x22].

(** The SQL text of an entry, as the f-strings of [build_sql] write it. *)
Definition render_cond (c : cond) : text :=
  match c with
  | IsNotNull c => quoted (column_name c) ++ txt " IS NOT NULL"
  | TrimNotEmpty c =>
      txt "TRIM(" ++ quoted (column_name c) ++ txt ") != " ++ quoted []
  | EqParam c => quoted (column_name c) ++ txt " = ?"
  | InParams c n =>
      quoted (column_name c) ++ txt " IN ("
        ++ join (txt ", ") (repeat (txt "?") n) ++ txt ")"
  | Like c => quoted (column_name c) ++ txt " LIKE ?"
  | AnyLike cs =>
      txt "(" ++ join (txt " OR ")
                   (map (fun c => quoted (column_name c) ++ txt " LIKE ?") cs)
        ++ txt ")"
  | NullOrNotLike c =>
      txt "(" ++ quoted (column_name c) ++ txt " IS NULL OR "
        ++ quoted (column_name c) ++ txt " NOT LIKE ?)"
  end.

(** A SELECT over [products]: the AND-ed entries and the LIMIT. *)
Record Statement := {
  st_where : list cond;
  st_limit : nat
}.

Definition text_of_nat (n : nat) : text :=
  txt (DecimalString.NilEmpty.string_of_uint (Nat.to_uint n)).

(** A line of the f-string: a newline, the indentation, the body. *)
Definition sql_line (indent : nat) (body : text) : text :=
  [0xA] ++ repeat 0x20 indent ++ body.

(** A line ["name"   AS alias] of the SELECT list. *)
Definition select_line (indent : nat) (name : text) (gap : nat)
  (alias : string) : text :=
  sql_line indent (quoted name ++ repeat 0x20 gap ++ txt "AS " ++ txt alias).

(** The SQL text of a statement; [indent] is the indentation of the
    f-string in the source (8 in [build_sql], 16 in the fallback). *)
Definition render_statement (indent : nat) (st : Statement) : text :=
  let where_sql :=
    if nonempty (st_where st)
    then join (txt " AND ") (map render_cond (st_where st))
    else txt "1=1" in
  let inner := (indent + 4)%nat in
  sql_line indent (txt "SELECT")
  ++ select_line inner (column_name COL_NAME) 8 "name,"
  ++ select_line inner COL_QTY 9 "qty,"
  ++ select_line inner COL_PRICE 7 "price,"
  ++ select_line inner (column_name COL_CAT) 9 "category_code,"
  ++ select_line inner (column_name COL_AUTHOR) 6 "author_or_type_or_age,"
  ++ select_line inner (column_name COL_TRANSLATOR) 2 "translator_or_playtime,"
  ++ select_line inner (column_name COL_PUBLISHER) 3 "publisher_or_brand,"
  ++ select_line inner (column_name COL_GROUP) 7 "group_main,"
  ++ select_line inner COL_SYS 9 "system_code,"
  ++ select_line inner (column_name COL_GROUPFAMILY) 1 "groupfamily"
  ++ sql_line indent (txt "FROM " ++ TABLE_NAME)
  ++ sql_line indent (txt "WHERE " ++ where_sql)
  ++ sql_line indent (txt "LIMIT " ++ text_of_nat (st_limit st))
  ++ sql_line (indent - 4)%nat [].

(* ------------------------------------------------------------------ *)
(** *** How SQLite evaluates the generated entries *)

(** [TRIM(X)] removes spaces (U+0020 only) from both ends. *)
Definition sqlite_trim (s : text) : text :=
  rev (dropWhile (N.eqb 0x20) (rev (dropWhile (N.eqb 0x20) s))).

(** LIKE folds case for ASCII letters only. *)
Definition ascii_fold (c : N) : N :=
  if (0x41 <=? c) && (c <=? 0x5A) then c + 0x20 else c.

(** The pattern matcher of LIKE without ESCAPE: [%] is any sequence, [_]
    any character. *)
Fixpoint like_match (p s : text) : bool :=
  match p with
  | [] => negb (nonempty s)
  | c :: p' =>
      if c =? 0x25 then
        (fix any_suffix (s : text) : bool :=
           like_match p' s
           || match s with [] => false | _ :: s' => any_suffix s' end) s
      else
        match s with
        | [] => false
        | d :: s' =>
            ((c =? 0x5F) || (ascii_fold c =? ascii_fold d)) && like_match p' s'
        end
  end.

(** The part of a text before its first U+0000. *)
Fixpoint until_nul (s : text) : text :=
  match s with
  | [] => []
  | c :: s' => if c =? 0 then [] else c :: until_nul s'
  end.

(** [s LIKE p].  The LIKE function of SQLite reads its two arguments as
    zero-terminated strings, so each ends at its first U+0000. *)
Definition sql_like (p s : text) : bool :=
  like_match (until_nul p) (until_nul s).

(** Truth of an entry on a row.  A comparison with NULL is NULL, which a
    WHERE clause treats as false. *)
Definition eval_cond (c : cond) (ps : list text) (r : Row) : bool :=
  match c with
  | IsNotNull c =>
      match field r c with Some _ => true | None => false end
  | TrimNotEmpty c =>
      match field r c with
      | Some s => nonempty (sqlite_trim s)
      | None => false
      end
  | EqParam c =>
      match field r c, ps with
      | Some s, p :: _ => text_eqb s p
      | _, _ => false
      end
  | InParams c _ =>
      match field r c with
      | Some s => existsb (text_eqb s) ps
      | None => false
      end
  | Like c =>
      match field r c, ps with
      | Some s, p :: _ => sql_like p s
      | _, _ => false
      end
  | AnyLike cs =>
      existsb (fun cp => match field r (fst cp) with
                         | Some s => sql_like (snd cp) s
                         | None => false
                         end)
              (combine cs ps)
  | NullOrNotLike c =>
      match field r c, ps with
      | None, _ => true
      | Some s, p :: _ => negb (sql_like p s)
      | Some _, [] => false
      end
  end.

Fixpoint eval_where (w : list cond) (ps : list text) (r : Row) : bool :=
  match w with
  | [] => true
  | c :: w' =>
      eval_cond c (firstn (arity c) ps) r
      && eval_where w' (skipn (arity c) ps) r
  end.

(** [cur.execute(sql, params); cur.fetchall()] over a table scan. *)
Definition run_statement (db : list Row) (st : Statement)
  (params : list text) : list Row :=
  firstn (st_limit st) (filter (eval_where (st_where st) params) db).

(** The cursor: a state monad over the log of executed statements. *)
Definition Executed := (Statement * list text)%type.
Definition Cursor (A : Type) := list Executed -> A * list Executed.

Definition ret {A} (a : A) : Cursor A := fun log => (a, log).
Definition bind {A B} (m : Cursor A) (k : A -> Cursor B) : Cursor B :=
  fun log => let '(a, log') := m log in k a log'.

Notation "x <- m ;; k" := (bind m (fun x => k))
  (at level 61, m at next level, right associativity).

Definition cur_execute (db : list Row) (st : Statement)
  (params : list text) : Cursor (list Row) :=
  fun log => (run_statement db st params, log ++ [(st, params)]).

(* ================================================================== *)
(** ** Python's [list.sort] and [max] *)
(* ================================================================== *)

(** [list.sort] is a stable sort that compares keys with [<] only, so its
    result is the one of a stable insertion sort.  With [reverse=True]
    CPython reverses the list, sorts it, and reverses the result, which
    keeps the original order among equal keys. *)
Fixpoint insert_by {A} (lt : A -> A -> bool) (x : A) (l : list A) : list A :=
  match l with
  | [] => [x]
  | y :: l' => if lt y x then y :: insert_by lt x l' else x :: l
  end.

Definition stable_sort {A} (lt : A -> A -> bool) (l : list A) : list A :=
  fold_right (insert_by lt) [] l.

Definition list_sort {A K} (lt : K -> K -> bool) (key : A -> K)
  (reverse : bool) (l : list A) : list A :=
  let by_key a b := lt (key a) (key b) in
  if reverse then rev (stable_sort by_key (rev l)) else stable_sort by_key l.

(** [max(x, y, ...)] on floats: the first maximal argument. *)
Definition float_max (x : float) (rest : list float) : float :=
  fold_left (fun m y => if PrimFloat.ltb m y then y else m) rest x.

(** The sort key [(v is None, v)] of the price and quantity orders.
    Tuples compare by their first differing component; the flag differs
    whenever exactly one value is [None], so [None] never meets an [int]. *)
Definition null_key := (bool * option Z)%type.

Definition null_last_key (v : option Z) : null_key :=
  (match v with None => true | Some _ => false end, v).

Definition null_key_lt (a b : null_key) : bool :=
  match fst a, fst b with
  | false, true => true
  | true, false => false
  | _, _ =>
      match snd a, snd b with
      | Some x, Some y => (x <? y)%Z
      | _, _ => false
      end
  end.

(* ================================================================== *)
(** ** The SearchIntent contract *)
(* ================================================================== *)

Record TextFilter := {
  include : list text;
  exclude : list text
}.

Record GroupFamilyTags := {
  include_all : list text;
  include_any : list text;
  gf_exclude : list text
}.

Record PriceFilter := {
  price_min : option Z;
  price_max : option Z
}.

Record StockFilter := {
  in_stock_only : option bool
}.

Record Filters := {
  f_name : TextFilter;
  f_author_or_type_or_age : TextFilter;
  f_translator_or_playtime : TextFilter;
  f_publisher_or_brand : TextFilter;
  f_group_main : TextFilter;
  f_groupfamily_tags : GroupFamilyTags;
  f_price : PriceFilter;
  f_stock : StockFilter
}.

Inductive SortBy := by_relevance | by_price | by_qty.
Inductive Direction := asc | desc.

Record SortSpec := {
  sort_by : SortBy;
  direction : Direction
}.

Record UISpec := {
  need_clarification : bool;
  clarification_question : option text
}.

(** [Optional[Union[str, List[str]]]]. *)
Inductive CategoryCode :=
| CatNone
| CatStr (s : text)
| CatList (l : list text).

Record SearchIntent := {
  version : text;
  category_code : CategoryCode;
  uploaded_only : bool;
  query_text : text;
  filters : Filters;
  sort_spec : SortSpec;
  limit : Z;
  ui : UISpec;
  debug_flag : bool
}.

(** The assignment [intent.query_text = q]. *)
Definition set_query_text (intent : SearchIntent) (q : text) : SearchIntent :=
  {| version := version intent;
     category_code := category_code intent;
     uploaded_only := uploaded_only intent;
     query_text := q;
     filters := filters intent;
     sort_spec := sort_spec intent;
     limit := limit intent;
     ui := ui intent;
     debug_flag := debug_flag intent |}.

(** The same intent with another stock filter. *)
Definition set_stock (intent : SearchIntent) (st : StockFilter)
  : SearchIntent :=
  let f := filters intent in
  {| version := version intent;
     category_code := category_code intent;
     uploaded_only := uploaded_only intent;
     query_text := query_text intent;
     filters :=
       {| f_name := f_name f;
          f_author_or_type_or_age := f_author_or_type_or_age f;
          f_translator_or_playtime := f_translator_or_playtime f;
          f_publisher_or_brand := f_publisher_or_brand f;
          f_group_main := f_group_main f;
          f_groupfamily_tags := f_groupfamily_tags f;
          f_price := f_price f;
          f_stock := st |};
     sort_spec := sort_spec intent;
     limit := limit intent;
     ui := ui intent;
     debug_flag := debug_flag intent |}.

(** Truthiness of [intent.category_code]. *)
Definition category_given (cc : CategoryCode) : bool :=
  match cc with
  | CatNone => false
  | CatStr s => nonempty s
  | CatList l => nonempty l
  end.

(** The keyword list of the auto-expand heuristic of [build_sql]. *)
Definition pen_keywords : list text :=
  [ [0x62E; 0x648; 0x62F; 0x6A9; 0x627; 0x631];
    [0x62E; 0x648; 0x62F; 0x646; 0x648; 0x6CC; 0x633];
    [0x631; 0x648; 0x627; 0x646; 0x20; 0x646; 0x648; 0x6CC; 0x633];
    [0x647; 0x62F; 0x6CC; 0x647];
    [0x642; 0x644; 0x645];
    [0x646; 0x641; 0x6CC; 0x633];
    [0x644; 0x627; 0x6A9; 0x686; 0x631; 0x6CC] ].

(** What a run of appends adds to [where] and to [params]. *)
Definition emitted := (list cond * list text)%type.

Definition emit_app (a b : emitted) : emitted :=
  (fst a ++ fst b, snd a ++ snd b).

Definition emit_all (l : list emitted) : emitted :=
  fold_right emit_app ([], []) l.

(* ================================================================== *)
(** ** Result items and the response envelope *)
(* ================================================================== *)

(** The dict [d] built for a row in [search]. *)
Record Item := {
  d_name : text;
  d_qty : value;
  d_price : value;
  d_category_code : text;
  d_author_or_type_or_age : text;
  d_translator_or_playtime : text;
  d_publisher_or_brand : text;
  d_group_main : text;
  d_system_code : value;
  d_groupfamily : text;
  d_price_value : option Z;
  d_qty_value : option Z;
  d_score : Z
}.

Definition set_score (d : Item) (s : Z) : Item :=
  {| d_name := d_name d; d_qty := d_qty d; d_price := d_price d;
     d_category_code := d_category_code d;
     d_author_or_type_or_age := d_author_or_type_or_age d;
     d_translator_or_playtime := d_translator_or_playtime d;
     d_publisher_or_brand := d_publisher_or_brand d;
     d_group_main := d_group_main d;
     d_system_code := d_system_code d;
     d_groupfamily := d_groupfamily d;
     d_price_value := d_price_value d;
     d_qty_value := d_qty_value d;
     d_score := s |}.

(** An entry of ["results"]. *)
Record ResultRow := {
  res_name : text;
  res_qty : option Z;
  res_price : option Z;
  res_category_code : text;
  res_author_or_type_or_age : text;
  res_translator_or_playtime : text;
  res_publisher_or_brand : text;
  res_group_main : text;
  res_groupfamily : text;
  res_system_code : value;
  res_score : Z
}.

Definition result_of (it : Item) : ResultRow :=
  {| res_name := d_name it;
     res_qty := d_qty_value it;
     res_price := d_price_value it;
     res_category_code := d_category_code it;
     res_author_or_type_or_age := d_author_or_type_or_age it;
     res_translator_or_playtime := d_translator_or_playtime it;
     res_publisher_or_brand := d_publisher_or_brand it;
     res_group_main := d_group_main it;
     res_groupfamily := d_groupfamily it;
     res_system_code := d_system_code it;
     res_score := d_score it |}.

Record DebugInfo := {
  dbg_sql : text;
  dbg_params : list text;
  dbg_db_path : text;
  dbg_aliases_path : text;
  dbg_aliases_loaded : bool
}.

Record Response := {
  resp_version : text;
  resp_query_text : text;
  resp_category_code_used : CategoryCode;
  resp_uploaded_only : bool;
  resp_count : nat;
  resp_category_distribution : list (text * nat);
  resp_results : list ResultRow;
  resp_debug : option DebugInfo
}.

(** [category_counts[cc] = category_counts.get(cc, 0) + 1] on a dict kept
    in insertion order. *)
Fixpoint bump (cc : text) (counts : list (text * nat)) : list (text * nat) :=
  match counts with
  | [] => [(cc, 1%nat)]
  | (k, n) :: rest =>
      if text_eqb k cc then (k, S n) :: rest else (k, n) :: bump cc rest
  end.

(** [passes_price_filter]. *)
Definition passes_price_filter (intent : SearchIntent) (row : Item) : bool :=
  let pmin := price_min (f_price (filters intent)) in
  let pmax := price_max (f_price (filters intent)) in
  match pmin, pmax with
  | None, None => true
  | _, _ =>
      match parse_price (d_price row) with
      | None => false
      | Some price_val =>
          if match pmin with Some lo => (price_val <? lo)%Z | None => false end
          then false
          else if match pmax with
                  | Some hi => (price_val >? hi)%Z
                  | None => false
                  end
               then false
               else true
      end
  end.

(** What [search] hands back: the envelope, or the [RuntimeError] of
    [get_connection] when the database file is missing. *)
Inductive Outcome :=
| DbFileNotFound
| Answer (r : Response).

(* ================================================================== *)
(** ** Definitions used to state the properties *)
(* ================================================================== *)

(** The characters [mapping] rewrites. *)
Definition is_source (c : N) : bool :=
  (c =? 0x64A) || (c =? 0x643) || (c =? 0x200C) || (c =? 0x640).

(** What the four replacements do to one character. *)
Definition map_char (c : N) : text :=
  if c =? 0x64A then [0x6CC]
  else if c =? 0x643 then [0x6A9]
  else if c =? 0x200C then [0x20]
  else if c =? 0x640 then []
  else [c].

(** Every whitespace character is a single U+0020 that does not follow
    another whitespace character ([prev] tells what precedes [s]). *)
Fixpoint single_spaced (prev : bool) (s : text) : bool :=
  match s with
  | [] => true
  | c :: s' =>
      if is_space c
      then (c =? 0x20) && negb prev && single_spaced true s'
      else single_spaced false s'
  end.

Fixpoint takeWhile {A} (p : A -> bool) (l : list A) : list A :=
  match l with
  | [] => []
  | x :: l' => if p x then x :: takeWhile p l' else []
  end.

(** The price parser as the specification words it: separators and
    currency noise are stripped and only the leading run of digits is
    kept and read as an integer. *)
Definition spec_leading_digit_run (s : text) : text :=
  takeWhile is_digit (dropWhile (fun c => negb (is_digit c)) s).

Definition spec_parse_price (v : value) : option Z :=
  match v with
  | VNull => None
  | VInt z => Some z
  | VReal f => int_of_float f
  | VText s0 =>
      let s := strip (replace_char 0x20 []
                        (replace_char 0x66C [] (replace_char 0x2C [] s0))) in
      let run := spec_leading_digit_run s in
      if nonempty run then int_of_digit_text run else None
  end.

(** The same row with another stored quantity. *)
Definition with_qty (r : Row) (q : value) : Row :=
  {| r_name := r_name r;
     r_qty := q;
     r_price := r_price r;
     r_category_code := r_category_code r;
     r_author_or_type_or_age := r_author_or_type_or_age r;
     r_translator_or_playtime := r_translator_or_playtime r;
     r_publisher_or_brand := r_publisher_or_brand r;
     r_group_main := r_group_main r;
     r_system_code := r_system_code r;
     r_groupfamily := r_groupfamily r |}.

(** Whether a parsed price lies within the bounds that are set. *)
Definition within_bounds (lo hi : option Z) (v : Z) : bool :=
  match lo with Some l => (l <=? v)%Z | None => true end
  && match hi with Some h => (v <=? h)%Z | None => true end.

(** A character the normalizer neither drops nor turns into a space. *)
Definition visible (c : N) : bool :=
  negb (is_space c) && negb (c =? 0x200C) && negb (c =? 0x640).

(** A text with a character that is not whitespace. *)
Definition has_ink (s : text) : Prop :=
  exists c, In c s /\ is_space c = false.

(** A compiled category predicate accepts exactly the rows whose stored
    category code is one of [allowed]. *)
Definition matches_categories (e : emitted) (allowed : list text) : Prop :=
  forall r : Row,
    eval_where (fst e) (snd e) r =
    match r_category_code r with
    | Some c => existsb (text_eqb c) allowed
    | None => false
    end.

Definition not_nan (f : spec_float) : bool :=
  match f with S754_nan => false | _ => true end.

(** The name the fallback compares with the seed: [r["name"] or ""]. *)
Definition name_or_empty (r : Row) : text :=
  match r_name r with Some n => n | None => [] end.

(** A crude stand-in for difflib in the concrete instances: the ratio
    [2.0 * M / T] with [M] the length of the common prefix. *)
Fixpoint common_prefix (a b : text) : nat :=
  match a, b with
  | x :: a', y :: b' => if x =? y then S (common_prefix a' b') else 0%nat
  | _, _ => 0%nat
  end.

Definition float_of_nat (n : nat) : float :=
  PrimFloat.of_uint63 (Uint63.of_Z (Z.of_nat n)).

Definition prefix_ratio (a b : text) : float :=
  let m := common_prefix a b in
  let t := (length a + length b)%nat in
  if Nat.eqb m 0 then (if Nat.eqb t 0 then 1%float else 0%float)
  else (2 * float_of_nat m / float_of_nat t)%float.

(** The digit of the ASCII block with the same decimal value. *)
Definition ascii_digit (c : N) : N :=
  match digit_value c with
  | Some d => 0x30 + d
  | None => c
  end.

(* ------------------------------------------------------------------ *)
(** *** The normalizer of the export pipeline (dbmaker.py, Normalizer.py) *)

(** The [mapping] dict of [normalize_persian] in dbmaker.py, in insertion
    order; Normalizer.py has the same entries under [replacements]. *)
Definition dbmaker_mapping : list (N * text) :=
  [ (0x64A, [0x6CC]); (0x649, [0x6CC]); (0x626, [0x6CC]); (0x643, [0x6A9]);
    (0x629, [0x647]); (0x200C, []); (0x640, []) ].

(** [normalize_persian] of dbmaker.py on a [str]. *)
Definition dbmaker_normalize_persian (s : text) : text :=
  fold_left (fun acc ab => replace_char (fst ab) (snd ab) acc)
            dbmaker_mapping s.

(** [normalize_persian] of Normalizer.py on a [str]: the same replacements
    followed by [strip()]. *)
Definition normalizer_normalize_persian (s : text) : text :=
  strip (fold_left (fun acc ab => replace_char (fst ab) (snd ab) acc)
                   dbmaker_mapping s).

(** The characters the export pipeline rewrites or deletes. *)
Definition dbmaker_source (c : N) : bool :=
  existsb (N.eqb c) (map fst dbmaker_mapping).

(** What the seven replacements do to one character. *)
Definition dbmaker_char (c : N) : text :=
  if c =? 0x64A then [0x6CC]
  else if c =? 0x649 then [0x6CC]
  else if c =? 0x626 then [0x6CC]
  else if c =? 0x643 then [0x6A9]
  else if c =? 0x629 then [0x647]
  else if c =? 0x200C then []
  else if c =? 0x640 then []
  else [c].

(** The characters on which the two normalizers part ways: the export
    pipeline deletes ZWNJ where the API puts a space, and it rewrites
    alef maksura, yeh with hamza and teh marbuta, which the API keeps. *)
Definition normalizers_differ_on (c : N) : bool :=
  (c =? 0x200C) || (c =? 0x649) || (c =? 0x626) || (c =? 0x629).

(* ------------------------------------------------------------------ *)
(** *** Placeholders and parameters *)

(** Number of [?] placeholders in an SQL text. *)
Definition placeholders (s : text) : nat :=
  length (filter (N.eqb 0x3F) s).

Fixpoint total (l : list nat) : nat :=
  match l with
  | [] => 0%nat
  | n :: l' => (n + total l')%nat
  end.

(** As many parameters as the entries have placeholders. *)
Definition balanced (e : emitted) : Prop :=
  total (map arity (fst e)) = length (snd e).

(** The AND of the entries of [e] on a row, with the parameters of [e]. *)
Definition holds (e : emitted) (r : Row) : bool :=
  eval_where (fst e) (snd e) r.

(* ------------------------------------------------------------------ *)
(** *** Reading the category counts and the orders *)

(** [category_counts.get(cc, 0)]. *)
Fixpoint count_for (cc : text) (counts : list (text * nat)) : nat :=
  match counts with
  | [] => 0%nat
  | (k, n) :: rest => if text_eqb k cc then n else count_for cc rest
  end.

Definition option_Z_eqb (a b : option Z) : bool :=
  match a, b with
  | Some x, Some y => (x =? y)%Z
  | None, None => true
  | _, _ => false
  end.

(** Ascending values, the missing ones last. *)
Definition ascending_nulls_last (a b : option Z) : Prop :=
  match a, b with
  | Some x, Some y => (x <= y)%Z
  | None, Some _ => False
  | _, None => True
  end.

(** Among present values, descending. *)
Definition descending_values (a b : option Z) : Prop :=
  match a, b with
  | Some x, Some y => (y <= x)%Z
  | _, _ => True
  end.

(* ------------------------------------------------------------------ *)
(** *** The alias generator (build_brand_aliases.py) *)

(** [s.replace(old, new)] for a non-empty [old]: occurrences are found
    from the left and do not overlap.  [skip] counts the characters of a
    matched occurrence still to be passed over. *)
Fixpoint replace_from (old new : text) (skip : nat) (s : text) : text :=
  match s with
  | [] => []
  | c :: s' =>
      match skip with
      | S k => replace_from old new k s'
      | O =>
          if is_prefix old s
          then new ++ replace_from old new (length old - 1) s'
          else c :: replace_from old new 0 s'
      end
  end.

Definition str_replace (old new s : text) : text := replace_from old new 0 s.

(** [LETTER_MAP], in insertion order. *)
Definition LETTER_MAP : list (text * text) :=
  [ ([0x70; 0x68], [0x641]);   (* ph *)
    ([0x66], [0x641]);         (* f *)
    ([0x62], [0x628]);         (* b *)
    ([0x70], [0x67E]);         (* p *)
    ([0x74], [0x62A]);         (* t *)
    ([0x64], [0x62F]);         (* d *)
    ([0x6B], [0x6A9]);         (* k *)
    ([0x67], [0x6AF]);         (* g *)
    ([0x73], [0x633]);         (* s *)
    ([0x73; 0x68], [0x634]);   (* sh *)
    ([0x63; 0x68], [0x686]);   (* ch *)
    ([0x6A], [0x62C]);         (* j *)
    ([0x6C], [0x644]);         (* l *)
    ([0x6D], [0x645]);         (* m *)
    ([0x6E], [0x646]);         (* n *)
    ([0x72], [0x631]);         (* r *)
    ([0x76], [0x648]);         (* v *)
    ([0x77], [0x648]);         (* w *)
    ([0x79], [0x6CC]);         (* y *)
    ([0x69], [0x6CC]);         (* i *)
    ([0x65], [0x65]);          (* e *)
    ([0x61], [0x627]);         (* a *)
    ([0x6F], [0x648]);         (* o *)
    ([0x75], [0x648]) ].       (* u *)

(** [LETTER_MAP] without its ["sh"] entry. *)
Definition LETTER_MAP_without_sh : list (text * text) :=
  filter (fun kv => negb (text_eqb (fst kv) [0x73; 0x68])) LETTER_MAP.

(** The loop of [phonetic_fa] over a letter map. *)
Definition transliterate (letters : list (text * text)) (w : text) : text :=
  fold_left (fun out kv => str_replace (fst kv) (snd kv) out) letters w.

(** The digits a text holds, read as one number from [acc] on. *)
Definition read_digits (acc : Z) (s : text) : Z :=
  fold_left
    (fun acc c => match digit_value c with
                  | Some d => (10 * acc + Z.of_N d)%Z
                  | None => acc
                  end)
    s acc.

(** Case analysis on the comparisons inside [SFcompare]. *)
Ltac compare_cases :=
  repeat match goal with
         | |- context [Z.compare ?x ?y] => destruct (Z.compare_spec x y)
         | |- context [Pos.compare_cont Eq ?x ?y] =>
             change (Pos.compare_cont Eq x y) with (Pos.compare x y);
             destruct (Pos.compare_spec x y)
         end.

(** Sample data for the concrete instances below. *)
Definition ascii_lower (s : text) : text :=
  map (fun c => if (0x41 <=? c) && (c <=? 0x5A) then c + 0x20 else c) s.

Definition blank_row : Row :=
  {| r_name := None; r_qty := VNull; r_price := VNull;
     r_category_code := None; r_author_or_type_or_age := None;
     r_translator_or_playtime := None; r_publisher_or_brand := None;
     r_group_main := None; r_system_code := VNull; r_groupfamily := None |}.

Definition no_text_filter : TextFilter := {| include := []; exclude := [] |}.

Definition no_filters : Filters :=
  {| f_name := no_text_filter;
     f_author_or_type_or_age := no_text_filter;
     f_translator_or_playtime := no_text_filter;
     f_publisher_or_brand := no_text_filter;
     f_group_main := no_text_filter;
     f_groupfamily_tags :=
       {| include_all := []; include_any := []; gf_exclude := [] |};
     f_price := {| price_min := None; price_max := None |};
     f_stock := {| in_stock_only := None |} |}.

(** The intent pydantic builds from an empty request body. *)
Definition default_intent : SearchIntent :=
  {| version := txt "1.0";
     category_code := CatNone;
     uploaded_only := true;
     query_text := [];
     filters := no_filters;
     sort_spec := {| sort_by := by_relevance; direction := desc |};
     limit := 10;
     ui := {| need_clarification := false; clarification_question := None |};
     debug_flag := false |}.

(** A stored book: a name, a price, a quantity and a groupfamily tag. *)
Definition book (name : text) (price qty : value) (gf : option text) : Row :=
  {| r_name := Some name; r_qty := qty; r_price := price;
     r_category_code := Some (txt "b");
     r_author_or_type_or_age := None;
     r_translator_or_playtime := None; r_publisher_or_brand := None;
     r_group_main := None; r_system_code := VNull; r_groupfamily := gf |}.

(** An intent that only chooses the order. *)
Definition sorted_intent (by_what : SortBy) (dir : Direction)
  : SearchIntent :=
  {| version := txt "1.0";
     category_code := CatNone;
     uploaded_only := false;
     query_text := [];
     filters := no_filters;
     sort_spec := {| sort_by := by_what; direction := dir |};
     limit := 10;
     ui := {| need_clarification := false; clarification_question := None |};
     debug_flag := false |}.

(** Two books, the second without a price and without a quantity. *)
Definition two_books : list Row :=
  [ book (txt "alpha") (VInt 5) (VInt 3) None;
    book (txt "beta") VNull VNull None ].

(** A book whose groupfamily field holds a lone ZWNJ. *)
Definition zwnj_tagged : list Row :=
  [ book (txt "gamma") (VInt 7) (VInt 1) (Some [0x200C]) ].

(** A name filter with a typo, and a shelf to search. *)
Definition typo_intent : SearchIntent :=
  {| version := txt "1.0";
     category_code := CatNone;
     uploaded_only := true;
     query_text := [];
     filters :=
       {| f_name := {| include := [txt "harry poter"]; exclude := [] |};
          f_author_or_type_or_age := no_text_filter;
          f_translator_or_playtime := no_text_filter;
          f_publisher_or_brand := no_text_filter;
          f_group_main := no_text_filter;
          f_groupfamily_tags :=
            {| include_all := []; include_any := []; gf_exclude := [] |};
          f_price := {| price_min := None; price_max := None |};
          f_stock := {| in_stock_only := None |} |};
     sort_spec := {| sort_by := by_relevance; direction := desc |};
     limit := 10;
     ui := {| need_clarification := false; clarification_question := None |};
     debug_flag := false |}.

Definition shelf : list Row :=
  [ book (txt "harry") (VInt 10) (VInt 1) (Some (txt "novel"));
    book (txt "harry potter") (VInt 20) (VInt 2) (Some (txt "novel, fantasy")) ].

(** An intent for stationery ("s") asking for a pen (the keyword
    U+0642 U+0644 U+0645). *)
Definition pen_intent : SearchIntent :=
  {| version := txt "1.0";
     category_code := CatStr (txt "S");
     uploaded_only := true;
     query_text := [0x642; 0x644; 0x645];
     filters := no_filters;
     sort_spec := {| sort_by := by_relevance; direction := desc |};
     limit := 10;
     ui := {| need_clarification := false; clarification_question := None |};
     debug_flag := false |}.

(** Alias maps: one with disjoint groups, one where two brands share an
    alias (U+0641 U+0627 U+0628 U+0631), as the alias generator produces
    for "faber castell" and "faber". *)
Definition faber_alias : text := [0x641; 0x627; 0x628; 0x631].

Definition disjoint_aliases : list (text * list text) :=
  [ (txt "pilot", [[0x67E; 0x6CC; 0x644; 0x648; 0x62A]]);
    (txt "faber castell", [faber_alias]) ].

Definition shared_aliases : list (text * list text) :=
  [ (txt "faber castell", [faber_alias]);
    (txt "faber", [faber_alias]) ].

(** An intent that only sets the name filter and the groupfamily tags. *)
Definition filtered_intent (name : TextFilter) (tags : GroupFamilyTags)
  : SearchIntent :=
  {| version := txt "1.0";
     category_code := CatNone;
     uploaded_only := true;
     query_text := [];
     filters :=
       {| f_name := name;
          f_author_or_type_or_age := no_text_filter;
          f_translator_or_playtime := no_text_filter;
          f_publisher_or_brand := no_text_filter;
          f_group_main := no_text_filter;
          f_groupfamily_tags := tags;
          f_price := {| price_min := None; price_max := None |};
          f_stock := {| in_stock_only := None |} |};
     sort_spec := {| sort_by := by_relevance; direction := desc |};
     limit := 10;
     ui := {| need_clarification := false; clarification_question := None |};
     debug_flag := false |}.

Definition no_tags : GroupFamilyTags :=
  {| include_all := []; include_any := []; gf_exclude := [] |}.

(** Both words are required in the name. *)
Definition two_terms_intent : SearchIntent :=
  filtered_intent {| include := [txt "harry"; txt "potter"]; exclude := [] |}
                  no_tags.

(** One word is required in the name, another is ruled out. *)
Definition exclude_intent : SearchIntent :=
  filtered_intent {| include := [txt "harry"]; exclude := [txt "potter"] |}
                  no_tags.

(** One tag is required, and one of two further tags. *)
Definition tags_intent : SearchIntent :=
  filtered_intent no_text_filter
                  {| include_all := [txt "novel"];
                     include_any := [txt "fantasy"; txt "poetry"];
                     gf_exclude := [] |}.

(** A free-text query inside a category given in upper case, or with a
    category that is present and empty. *)
Definition query_intent (cat : CategoryCode) (q : text) : SearchIntent :=
  {| version := txt "1.0";
     category_code := cat;
     uploaded_only := true;
     query_text := q;
     filters := no_filters;
     sort_spec := {| sort_by := by_relevance; direction := desc |};
     limit := 10;
     ui := {| need_clarification := false; clarification_question := None |};
     debug_flag := false |}.

Definition potter_row : Row :=
  book (txt "harry potter") (VInt 20) (VInt 2) (Some (txt "novel, fantasy")).

Definition harry_row : Row :=
  book (txt "harry") (VInt 10) (VInt 1) (Some (txt "novel")).

(* ================================================================== *)
(** ** The engine *)
(* ================================================================== *)

Section Engine.

(** [str.lower], which follows the Unicode case tables. *)
Variable str_lower : text -> text.

(** The alias map loaded from [brand_aliases.json], in file order. *)
Variable BRAND_ALIASES : list (text * list text).

(** [difflib.SequenceMatcher(None, a, b).ratio()], that is
    [2.0 * matches / length]: nothing matches in an empty string. *)
Variable sequence_ratio : text -> text -> float.
Hypothesis sequence_ratio_empty :
  forall a : text, a <> [] -> sequence_ratio a [] = 0%float.

(** [rapidfuzz.fuzz.partial_ratio], a float between 0 and 100. *)
Variable partial_ratio : text -> text -> float.

Variables DB_PATH ALIASES_PATH : text.

(** [similarity]. *)
Definition similarity (a b : text) : float :=
  sequence_ratio (normalize_persian a) (normalize_persian b).

(* ---------------------------------------------------------------- *)
(** *** SQL builder *)

Definition uploaded_clauses (intent : SearchIntent) : list cond :=
  if uploaded_only intent
  then [IsNotNull COL_GROUPFAMILY; TrimNotEmpty COL_GROUPFAMILY]
  else [].

(** [normalize_persian(c).strip().lower()]. *)
Definition clean_code (c : text) : text :=
  str_lower (strip (normalize_persian c)).

(** The list [cats] computed from a truthy [category_code]; blank
    entries of a list are skipped. *)
Definition listed_cats (cc : CategoryCode) : list text :=
  match cc with
  | CatList l => map clean_code (filter (fun c => nonempty (strip c)) l)
  | CatStr s => [clean_code s]
  | CatNone => []
  end.

(** [cats] after the optional auto-expand of [build_sql]. *)
Definition widened_cats (intent : SearchIntent) : list text :=
  let cats := listed_cats (category_code intent) in
  let q := normalize_persian (query_text intent) in
  if texts_eqb cats [txt "s"] && existsb (fun k => contains k q) pen_keywords
  then [txt "s"; txt "l"]
  else cats.

Definition category_clauses (intent : SearchIntent) : emitted :=
  if category_given (category_code intent) then
    let cats := widened_cats intent in
    match cats with
    | [c] => ([EqParam COL_CAT], [c])
    | _ => ([InParams COL_CAT (length cats)], cats)
    end
  else ([], []).

Definition norm_lower (x : text) : text := str_lower (normalize_persian x).

(** [t_norm in all_norm] for one entry of the alias map. *)
Definition entry_matches (t_norm : text) (entry : text * list text)
  : bool :=
  existsb (text_eqb t_norm) (map norm_lower (fst entry :: snd entry)).

Fixpoint expand_in (aliases : list (text * list text))
  (t_norm user_term : text) : list text :=
  match aliases with
  | [] => [user_term]
  | (canonical, al) :: rest =>
      let all_terms := canonical :: al in
      let all_norm := map norm_lower all_terms in
      if existsb (text_eqb t_norm) all_norm
      then all_terms
      else expand_in rest t_norm user_term
  end.

(** [expand_brand_terms]. *)
Definition expand_brand_terms (user_term : text) : list text :=
  expand_in BRAND_ALIASES (norm_lower user_term) user_term.

(** One turn of the include loop of [apply_text_filter]. *)
Definition include_clause (col : column) (t : text) : emitted :=
  let t := normalize_persian t in
  if nonempty t then
    let terms :=
      if column_eqb col COL_PUBLISHER && nonempty BRAND_ALIASES
      then expand_brand_terms t
      else [t] in
    ([AnyLike (repeat col (length terms))],
     map (fun term => like_pattern (normalize_persian term)) terms)
  else ([], []).

(** One turn of an exclude loop. *)
Definition exclude_clause (col : column) (t : text) : emitted :=
  let t := normalize_persian t in
  if nonempty t then ([NullOrNotLike col], [like_pattern t]) else ([], []).

(** [apply_text_filter]. *)
Definition apply_text_filter (col : column) (tf : TextFilter) : emitted :=
  emit_app (emit_all (map (include_clause col) (include tf)))
           (emit_all (map (exclude_clause col) (exclude tf))).

Definition groupfamily_clauses (gf : GroupFamilyTags) : emitted :=
  let all_of :=
    emit_all
      (map (fun t => let t := normalize_persian t in
                     if nonempty t
                     then ([Like COL_GROUPFAMILY], [like_pattern t])
                     else ([], []))
           (include_all gf)) in
  let any_terms :=
    filter (fun t => nonempty t) (map normalize_persian (include_any gf)) in
  let any_of : emitted :=
    if nonempty any_terms
    then ([AnyLike (repeat COL_GROUPFAMILY (length any_terms))],
          map like_pattern any_terms)
    else ([], []) in
  let none_of :=
    emit_all (map (exclude_clause COL_GROUPFAMILY) (gf_exclude gf)) in
  emit_app all_of (emit_app any_of none_of).

Definition filter_given (tf : TextFilter) : bool :=
  nonempty (include tf) || nonempty (exclude tf).

Definition user_filters_present (intent : SearchIntent) : bool :=
  let f := filters intent in
  let gf := f_groupfamily_tags f in
  match category_code intent with CatNone => false | _ => true end
  || filter_given (f_name f)
  || filter_given (f_author_or_type_or_age f)
  || filter_given (f_translator_or_playtime f)
  || filter_given (f_publisher_or_brand f)
  || filter_given (f_group_main f)
  || (nonempty (include_all gf) || nonempty (include_any gf)
      || nonempty (gf_exclude gf)).

Definition or_cols : list column :=
  [COL_NAME; COL_AUTHOR; COL_TRANSLATOR; COL_PUBLISHER; COL_GROUP;
   COL_GROUPFAMILY].

Definition free_text_clauses (intent : SearchIntent) : emitted :=
  let qtext := normalize_query (query_text intent) in
  if nonempty qtext && negb (user_filters_present intent)
  then ([AnyLike or_cols], map (fun _ => like_pattern qtext) or_cols)
  else ([], []).

(** The [where] and [params] lists of [build_sql]. *)
Definition build_where (intent : SearchIntent) : emitted :=
  let f := filters intent in
  emit_all
    [ (uploaded_clauses intent, []);
      category_clauses intent;
      apply_text_filter COL_NAME (f_name f);
      apply_text_filter COL_AUTHOR (f_author_or_type_or_age f);
      apply_text_filter COL_TRANSLATOR (f_translator_or_playtime f);
      apply_text_filter COL_PUBLISHER (f_publisher_or_brand f);
      apply_text_filter COL_GROUP (f_group_main f);
      groupfamily_clauses (f_groupfamily_tags f);
      free_text_clauses intent ].

(** [build_sql]: the statement (whose text is [render_statement 8]) and
    its parameters. *)
Definition build_sql (intent : SearchIntent) : Statement * list text :=
  let w := build_where intent in
  ({| st_where := fst w; st_limit := 1200 |}, snd w).

(* ---------------------------------------------------------------- *)
(** *** Ranking and post filter *)

(** [compute_relevance_score].  [partial_ratio] is finite, so the
    conversion to [int] cannot fail. *)
Definition compute_relevance_score (intent : SearchIntent) (row : Item)
  : Z :=
  let q := normalize_query (query_text intent) in
  if nonempty q then
    let s1 := partial_ratio q (normalize_persian (d_name row)) in
    let s2 :=
      partial_ratio q (normalize_persian (d_author_or_type_or_age row)) in
    let s3 :=
      partial_ratio q (normalize_persian (d_translator_or_playtime row)) in
    let s4 :=
      partial_ratio q (normalize_persian (d_publisher_or_brand row)) in
    let s5 := partial_ratio q (normalize_persian (d_groupfamily row)) in
    let s6 := partial_ratio q (normalize_persian (d_group_main row)) in
    match int_of_float
            (float_max (0.95 * s1)
               [0.90 * s5; 0.75 * s2; 0.65 * s3; 0.55 * s4; 0.50 * s6])%float
    with
    | Some z => z
    | None => 0%Z
    end
  else 0%Z.

(** The display copy of a row with its parsed price and quantity; the
    score is filled in after the price filter. *)
Definition display (r : Row) : Item :=
  {| d_name := normalize_persian_opt (r_name r);
     d_qty := r_qty r;
     d_price := r_price r;
     d_category_code :=
       str_lower (strip (normalize_persian_opt (r_category_code r)));
     d_author_or_type_or_age :=
       normalize_persian_opt (r_author_or_type_or_age r);
     d_translator_or_playtime :=
       normalize_persian_opt (r_translator_or_playtime r);
     d_publisher_or_brand := normalize_persian_opt (r_publisher_or_brand r);
     d_group_main := normalize_persian_opt (r_group_main r);
     d_system_code := r_system_code r;
     d_groupfamily := normalize_persian_opt (r_groupfamily r);
     d_price_value := parse_price (r_price r);
     d_qty_value := parse_qty (r_qty r);
     d_score := 0%Z |}.

(** The list [items] at the end of the row loop of [search]. *)
Definition collect_items (intent : SearchIntent) (rows : list Row)
  : list Item :=
  map (fun d => set_score d (compute_relevance_score intent d))
      (filter (passes_price_filter intent) (map display rows)).

(** The dict [category_counts] at the end of the row loop. *)
Definition count_categories (items : list Item) : list (text * nat) :=
  fold_left (fun counts d => bump (d_category_code d) counts) items [].

(** The three orders of [search]. *)
Definition rank (spec : SortSpec) (items : list Item) : list Item :=
  let reverse := match direction spec with desc => true | asc => false end in
  match sort_by spec with
  | by_price =>
      list_sort null_key_lt (fun x => null_last_key (d_price_value x))
                reverse items
  | by_qty =>
      list_sort null_key_lt (fun x => null_last_key (d_qty_value x))
                reverse items
  | by_relevance => list_sort Z.ltb d_score true items
  end.

Definition limit_final (intent : SearchIntent) : Z :=
  Z.max 1 (Z.min (limit intent) 50).

(* ---------------------------------------------------------------- *)
(** *** Fuzzy name fallback *)

Definition name_seed (intent : SearchIntent) : text :=
  match include (f_name (filters intent)) with
  | first :: _ => normalize_query first
  | [] => query_text intent
  end.

(** The wider candidate fetch: only [uploaded_only] and the category
    survive, and the category is never auto-expanded. *)
Definition fallback_sql (intent : SearchIntent) : Statement * list text :=
  let cats :=
    if category_given (category_code intent)
    then listed_cats (category_code intent)
    else [] in
  let cat_clause : emitted :=
    if nonempty cats
    then ([InParams COL_CAT (length cats)], cats)
    else ([], []) in
  ({| st_where := uploaded_clauses intent ++ fst cat_clause;
      st_limit := 2500 |},
   snd cat_clause).

(** The list [fuzzy_matches] before it is sorted. *)
Definition fuzzy_matches (seed : text) (candidates : list Row)
  : list (float * Row) :=
  flat_map
    (fun r =>
       let pname := normalize_query (name_or_empty r) in
       if nonempty pname then
         let score := similarity seed pname in
         if (0.72 <=? score)%float then [(score, r)] else []
       else [])
    candidates.

(** The rows the fallback puts in place of the empty primary result. *)
Definition fuzzy_rows (seed : text) (candidates : list Row) : list Row :=
  map snd
      (firstn 1200
         (list_sort PrimFloat.ltb fst true (fuzzy_matches seed candidates))).

(** The [try] block of [search]: the primary fetch and, when it is empty
    and there is a seed, the fallback fetch. *)
Definition fetch_rows (db : list Row) (intent : SearchIntent)
  : Cursor (list Row) :=
  let '(sql, params) := build_sql intent in
  rows <- cur_execute db sql params ;;
  let seed := name_seed intent in
  if negb (nonempty rows) && nonempty seed then
    let '(fsql, p) := fallback_sql intent in
    candidates <- cur_execute db fsql p ;;
    ret (fuzzy_rows seed candidates)
  else ret rows.

(* ---------------------------------------------------------------- *)
(** *** The endpoint *)

(** [search] once the connection is open: the response and the log of
    the statements the cursor executed. *)
Definition search_on (db : list Row) (intent0 : SearchIntent)
  : Response * list Executed :=
  let intent := set_query_text intent0 (normalize_query (query_text intent0)) in
  let '(rows, log) := fetch_rows db intent [] in
  let items := collect_items intent rows in
  let category_counts := count_categories items in
  let items := rank (sort_spec intent) items in
  let items := firstn (Z.to_nat (limit_final intent)) items in
  ({| resp_version := version intent;
      resp_query_text := query_text intent;
      resp_category_code_used := category_code intent;
      resp_uploaded_only := uploaded_only intent;
      resp_count := length items;
      resp_category_distribution := category_counts;
      resp_results := map result_of items;
      resp_debug :=
        if debug_flag intent
        then Some {| dbg_sql :=
                       strip (render_statement 8 (fst (build_sql intent)));
                     dbg_params := snd (build_sql intent);
                     dbg_db_path := DB_PATH;
                     dbg_aliases_path := ALIASES_PATH;
                     dbg_aliases_loaded := nonempty BRAND_ALIASES |}
        else None |},
   log).

(** [search]; [store] is [None] when the database file does not exist. *)
Definition search (store : option (list Row)) (intent : SearchIntent)
  : Outcome :=
  match store with
  | None => DbFileNotFound
  | Some db => Answer (fst (search_on db intent))
  end.

(* ---------------------------------------------------------------- *)
(** *** The stages of a run, named for the statements below *)

(** The intent after [search] has normalized its query text. *)
Definition normalized_intent (intent0 : SearchIntent) : SearchIntent :=
  set_query_text intent0 (normalize_query (query_text intent0)).

(** The rows of the primary fetch. *)
Definition primary_rows (db : list Row) (intent0 : SearchIntent)
  : list Row :=
  let intent := normalized_intent intent0 in
  run_statement db (fst (build_sql intent)) (snd (build_sql intent)).

(** The candidates of the fallback fetch. *)
Definition fallback_candidates (db : list Row) (intent0 : SearchIntent)
  : list Row :=
  let intent := normalized_intent intent0 in
  run_statement db (fst (fallback_sql intent)) (snd (fallback_sql intent)).

(** The rows that enter the row loop. *)
Definition fetched_rows (db : list Row) (intent0 : SearchIntent)
  : list Row :=
  fst (fetch_rows db (normalized_intent intent0) []).

(** The set after the price filter, before sorting and truncation. *)
Definition post_filter_items (db : list Row) (intent0 : SearchIntent)
  : list Item :=
  collect_items (normalized_intent intent0) (fetched_rows db intent0).

(** The runs of appends of [build_sql], in order. *)
Definition where_pieces (intent : SearchIntent) : list emitted :=
  let f := filters intent in
  [ (uploaded_clauses intent, []);
    category_clauses intent;
    apply_text_filter COL_NAME (f_name f);
    apply_text_filter COL_AUTHOR (f_author_or_type_or_age f);
    apply_text_filter COL_TRANSLATOR (f_translator_or_playtime f);
    apply_text_filter COL_PUBLISHER (f_publisher_or_brand f);
    apply_text_filter COL_GROUP (f_group_main f);
    groupfamily_clauses (f_groupfamily_tags f);
    free_text_clauses intent ].

(** The five text filters with their columns. *)
Definition text_filters (intent : SearchIntent)
  : list (column * TextFilter) :=
  let f := filters intent in
  [ (COL_NAME, f_name f);
    (COL_AUTHOR, f_author_or_type_or_age f);
    (COL_TRANSLATOR, f_translator_or_playtime f);
    (COL_PUBLISHER, f_publisher_or_brand f);
    (COL_GROUP, f_group_main f) ].

(** The terms OR-ed for one include term: its alias group for the
    publisher column when an alias map is loaded, else the term itself. *)
Definition include_terms (col : column) (t : text) : list text :=
  if column_eqb col COL_PUBLISHER && nonempty BRAND_ALIASES
  then expand_brand_terms (normalize_persian t)
  else [normalize_persian t].

(** [normalize] of build_brand_aliases.py: [s.lower().strip()]. *)
Definition brand_normalize (s : text) : text := strip (str_lower s).

(** [phonetic_fa]. *)
Definition phonetic_fa (word : text) : text :=
  transliterate LETTER_MAP (brand_normalize word).

(* ================================================================ *)
(** ** Properties of the normalizer *)
(* ================================================================ *)

Lemma replace_char_app a b s t :
  replace_char a b (s ++ t) = replace_char a b s ++ replace_char a b t.
Proof. unfold replace_char. apply flat_map_app. Qed.

Lemma apply_mapping_cons c s :
  apply_mapping (c :: s) = apply_mapping [c] ++ apply_mapping s.
Proof.
  unfold apply_mapping, mapping. cbn [fold_left fst snd].
  change (c :: s) with ([c] ++ s).
  now rewrite !replace_char_app.
Qed.

Lemma apply_mapping_one c : apply_mapping [c] = map_char c.
Proof.
  unfold apply_mapping, mapping, map_char, replace_char.
  cbn [fold_left fst snd flat_map app].
  destruct (c =? 0x64A) eqn:E1; [reflexivity|].
  cbn [flat_map app]. destruct (c =? 0x643) eqn:E2; [reflexivity|].
  cbn [flat_map app]. destruct (c =? 0x200C) eqn:E3; [reflexivity|].
  cbn [flat_map app]. destruct (c =? 0x640) eqn:E4; reflexivity.
Qed.

Lemma apply_mapping_flat_map s : apply_mapping s = flat_map map_char s.
Proof.
  induction s as [|c s IH]; [reflexivity|].
  rewrite apply_mapping_cons, apply_mapping_one, IH. reflexivity.
Qed.

Lemma map_char_clean c : Forall (fun x => is_source x = false) (map_char c).
Proof.
  unfold map_char.
  destruct (c =? 0x64A) eqn:E1; [repeat constructor|].
  destruct (c =? 0x643) eqn:E2; [repeat constructor|].
  destruct (c =? 0x200C) eqn:E3; [repeat constructor|].
  destruct (c =? 0x640) eqn:E4; [constructor|].
  repeat constructor. unfold is_source. now rewrite E1, E2, E3, E4.
Qed.

Lemma apply_mapping_clean s :
  Forall (fun x => is_source x = false) (apply_mapping s).
Proof.
  rewrite apply_mapping_flat_map.
  induction s as [|c s IH]; [constructor|].
  cbn [flat_map]. apply Forall_app. split; [apply map_char_clean | exact IH].
Qed.

Lemma apply_mapping_fixed s :
  Forall (fun x => is_source x = false) s -> apply_mapping s = s.
Proof.
  rewrite apply_mapping_flat_map.
  induction 1 as [|c s Hc _ IH]; [reflexivity|].
  cbn [flat_map]. rewrite IH.
  unfold is_source in Hc. unfold map_char.
  repeat (apply orb_false_elim in Hc; destruct Hc as [Hc ?]).
  now rewrite Hc, H1, H0, H.
Qed.

Lemma sub_spaces_clean b s :
  Forall (fun x => is_source x = false) s ->
  Forall (fun x => is_source x = false) (sub_spaces b s).
Proof.
  intros H. revert b. induction H as [|c s Hc _ IH]; intros b; [constructor|].
  cbn [sub_spaces]. destruct (is_space c).
  - destruct b; [apply IH|]. constructor; [reflexivity | apply IH].
  - constructor; [exact Hc | apply IH].
Qed.

Lemma dropWhile_Forall {A} (p : A -> bool) (P : A -> Prop) l :
  Forall P l -> Forall P (dropWhile p l).
Proof.
  induction 1 as [|x l Hx Hl IH]; [constructor|].
  cbn [dropWhile]. destruct (p x); [exact IH | now constructor].
Qed.

Lemma strip_Forall (P : N -> Prop) s : Forall P s -> Forall P (strip s).
Proof.
  intros H. unfold strip, rstrip, lstrip.
  apply Forall_rev, dropWhile_Forall, Forall_rev, dropWhile_Forall, H.
Qed.

Lemma sub_spaces_single_spaced b s : single_spaced b (sub_spaces b s) = true.
Proof.
  revert b. induction s as [|c s IH]; intros b; [reflexivity|].
  cbn [sub_spaces]. destruct (is_space c) eqn:E.
  - destruct b; [apply IH|].
    cbn [single_spaced]. change (is_space 0x20) with true.
    cbn. apply IH.
  - cbn [single_spaced]. rewrite E. apply IH.
Qed.

Lemma sub_spaces_fixed b s : single_spaced b s = true -> sub_spaces b s = s.
Proof.
  revert b. induction s as [|c s IH]; intros b H; [reflexivity|].
  cbn [single_spaced] in H. cbn [sub_spaces].
  destruct (is_space c) eqn:E.
  - apply andb_prop in H. destruct H as [H H2].
    apply andb_prop in H. destruct H as [Hc Hb].
    apply N.eqb_eq in Hc. subst c.
    destruct b; [discriminate|]. now rewrite IH.
  - now rewrite IH.
Qed.

(** [dropWhile] leaves a suffix. *)
Lemma dropWhile_suffix {A} (p : A -> bool) l :
  exists pre, l = pre ++ dropWhile p l.
Proof.
  induction l as [|x l [pre IH]]; [now exists []|].
  cbn [dropWhile]. destruct (p x).
  - exists (x :: pre). cbn. now f_equal.
  - now exists [].
Qed.

Lemma dropWhile_idem {A} (p : A -> bool) l :
  dropWhile p (dropWhile p l) = dropWhile p l.
Proof.
  induction l as [|x l IH]; [reflexivity|].
  cbn [dropWhile]. destruct (p x) eqn:E; [exact IH|].
  cbn [dropWhile]. now rewrite E.
Qed.

Lemma dropWhile_snoc {A} (p : A -> bool) l c :
  p c = false -> dropWhile p (l ++ [c]) = dropWhile p l ++ [c].
Proof.
  intros Hc. induction l as [|x l IH]; cbn [dropWhile app].
  - now rewrite Hc.
  - destruct (p x); [exact IH | reflexivity].
Qed.

Lemma rstrip_cons c s : is_space c = false -> rstrip (c :: s) = c :: rstrip s.
Proof.
  intros Hc. unfold rstrip. cbn [rev].
  rewrite dropWhile_snoc by exact Hc.
  now rewrite rev_app_distr.
Qed.

Lemma rstrip_idem s : rstrip (rstrip s) = rstrip s.
Proof. unfold rstrip. now rewrite rev_involutive, dropWhile_idem. Qed.

(** After [lstrip] a text is empty or starts with a non-space. *)
Lemma lstrip_head s :
  lstrip s = [] \/ exists c r, lstrip s = c :: r /\ is_space c = false.
Proof.
  unfold lstrip. induction s as [|x s IH]; [now left|].
  cbn [dropWhile]. destruct (is_space x) eqn:E; [exact IH|].
  right. now exists x, s.
Qed.

Lemma strip_idem s : strip (strip s) = strip s.
Proof.
  unfold strip.
  destruct (lstrip_head s) as [H | (c & r & H & Hc)]; rewrite H.
  - reflexivity.
  - rewrite rstrip_cons by exact Hc.
    unfold lstrip. cbn [dropWhile]. rewrite Hc.
    rewrite rstrip_cons by exact Hc. now rewrite rstrip_idem.
Qed.

Lemma single_spaced_prefix b s t :
  single_spaced b (s ++ t) = true -> single_spaced b s = true.
Proof.
  revert b. induction s as [|c s IH]; intros b H; [reflexivity|].
  cbn [app single_spaced] in *. destruct (is_space c).
  - apply andb_prop in H. destruct H as [H1 H2].
    rewrite H1. cbn. now apply IH with (b := true).
  - now apply IH.
Qed.

Lemma single_spaced_lstrip b b' s :
  single_spaced b s = true -> single_spaced b' (lstrip s) = true.
Proof.
  unfold lstrip. revert b. induction s as [|c s IH]; intros b H;
    [reflexivity|].
  cbn [dropWhile]. cbn [single_spaced] in H.
  destruct (is_space c) eqn:E.
  - apply andb_prop in H. destruct H as [_ H]. now apply IH with (b := true).
  - cbn [single_spaced]. now rewrite E.
Qed.

Lemma rstrip_prefix s : exists tail, s = rstrip s ++ tail.
Proof.
  unfold rstrip. destruct (dropWhile_suffix is_space (rev s)) as [pre H].
  exists (rev pre). rewrite <- rev_app_distr, <- H. now rewrite rev_involutive.
Qed.

Lemma single_spaced_strip b s :
  single_spaced b s = true -> single_spaced false (strip s) = true.
Proof.
  intros H. unfold strip.
  destruct (rstrip_prefix (lstrip s)) as [tail Ht].
  apply single_spaced_prefix with (t := tail). rewrite <- Ht.
  now apply single_spaced_lstrip with (b := b).
Qed.

Lemma normalize_persian_clean s :
  Forall (fun x => is_source x = false) (normalize_persian s).
Proof.
  unfold normalize_persian, collapse_spaces.
  apply strip_Forall, sub_spaces_clean, apply_mapping_clean.
Qed.

Lemma normalize_persian_single_spaced s :
  single_spaced false (normalize_persian s) = true.
Proof.
  unfold normalize_persian, collapse_spaces.
  apply single_spaced_strip with (b := false), sub_spaces_single_spaced.
Qed.

(** A text without mapped characters, single-spaced and stripped is left
    as it is. *)
Lemma normalize_persian_fixpoint t :
  Forall (fun x => is_source x = false) t ->
  single_spaced false t = true ->
  strip t = t ->
  normalize_persian t = t.
Proof.
  intros Hclean Hspaced Hstrip. unfold normalize_persian, collapse_spaces.
  rewrite apply_mapping_fixed by exact Hclean.
  rewrite sub_spaces_fixed by exact Hspaced.
  exact Hstrip.
Qed.

(** C9. The text normalizer is idempotent: for every string [s],
    [normalize_persian (normalize_persian s) = normalize_persian s]. *)
Theorem normalize_persian_idempotent :
  forall s : text,
    normalize_persian (normalize_persian s) = normalize_persian s.
Proof.
  intros s. apply normalize_persian_fixpoint.
  - apply normalize_persian_clean.
  - apply normalize_persian_single_spaced.
  - unfold normalize_persian. apply strip_idem.
Qed.

(* ================================================================ *)
(** ** Properties of the price parser and the price filter *)
(* ================================================================ *)

Lemma space_not_digit c : is_space c = true -> is_digit c = false.
Proof.
  unfold is_space. intros H.
  apply existsb_exists in H. destruct H as (x & Hin & Hx).
  apply N.eqb_eq in Hx. subst x. cbn [whitespace_table In] in Hin.
  repeat (destruct Hin as [<- | Hin]; [vm_compute; reflexivity|]).
  contradiction.
Qed.

Lemma filter_digit_replace a s :
  is_digit a = false ->
  filter is_digit (replace_char a [] s) = filter is_digit s.
Proof.
  intros Ha. unfold replace_char.
  induction s as [|c s IH]; [reflexivity|].
  cbn [flat_map filter]. destruct (c =? a) eqn:E.
  - apply N.eqb_eq in E. subst c. rewrite Ha. exact IH.
  - cbn [app filter]. now rewrite IH.
Qed.

Lemma filter_digit_dropWhile s :
  filter is_digit (dropWhile is_space s) = filter is_digit s.
Proof.
  induction s as [|c s IH]; [reflexivity|].
  cbn [dropWhile filter]. destruct (is_space c) eqn:E; [|reflexivity].
  now rewrite (space_not_digit c E).
Qed.

Lemma filter_digit_int_strip s :
  filter is_digit (int_strip s) = filter is_digit s.
Proof.
  assert (H : forall t, filter is_digit (dropWhile is_int_space t)
                        = filter is_digit t).
  { induction t as [|c t IH]; [reflexivity|].
    cbn [dropWhile filter]. destruct (is_int_space c) eqn:E; [|reflexivity].
    unfold is_int_space in E. apply andb_prop in E. destruct E as [E _].
    now rewrite (space_not_digit c E). }
  unfold int_strip.
  rewrite filter_rev, H, <- filter_rev, rev_involutive. apply H.
Qed.

Lemma filter_digit_strip s : filter is_digit (strip s) = filter is_digit s.
Proof.
  unfold strip, rstrip, lstrip.
  rewrite filter_rev, filter_digit_dropWhile, <- filter_rev, rev_involutive.
  apply filter_digit_dropWhile.
Qed.

(** The digits [parse_price] reads are all the digits of the field. *)
Lemma parse_price_text s :
  parse_price (VText s) =
  if nonempty (filter is_digit s)
  then int_of_digit_text (filter is_digit s)
  else None.
Proof.
  unfold parse_price, drop_non_digits.
  rewrite filter_digit_strip.
  rewrite !filter_digit_replace by (vm_compute; reflexivity).
  reflexivity.
Qed.

(** [int()] of a float cuts the fraction off: the float [m * 2^e] gives
    the integer [q] with [q <= m * 2^e < q + 1], with the sign put back. *)
Lemma int_of_float_truncates f :
  match Prim2SF f with
  | S754_zero _ => int_of_float f = Some 0%Z
  | S754_finite sign m e =>
      exists q : Z,
        int_of_float f = Some (if sign then (- q)%Z else q)
        /\ (q * 2 ^ Z.max 0 (- e) <= Z.pos m * 2 ^ Z.max 0 e
            < (q + 1) * 2 ^ Z.max 0 (- e))%Z
  | S754_infinity _ | S754_nan => int_of_float f = None
  end.
Proof.
  unfold int_of_float. destruct (Prim2SF f) as [sg|sg| |sg m e];
    try reflexivity.
  destruct (0 <=? e)%Z eqn:E.
  - apply Z.leb_le in E. exists (Z.pos m * 2 ^ e)%Z.
    split; [reflexivity|].
    rewrite (Z.max_l 0 (- e)), (Z.max_r 0 e) by lia.
    change (2 ^ 0)%Z with 1%Z. lia.
  - apply Z.leb_gt in E. exists (Z.pos m / 2 ^ (- e))%Z.
    split; [reflexivity|].
    rewrite (Z.max_r 0 (- e)), (Z.max_l 0 e) by lia.
    change (2 ^ 0)%Z with 1%Z.
    assert (Hd : (0 < 2 ^ (- e))%Z) by (apply Z.pow_pos_nonneg; lia).
    pose proof (Z.mul_div_le (Z.pos m) _ Hd).
    pose proof (Z.mul_succ_div_gt (Z.pos m) _ Hd).
    lia.
Qed.

(** C2 (as amended). [parse_price] on each kind of value.  From a text
    it drops every character that is not a decimal digit (separators,
    currency text, anything else) and reads all the digits that remain,
    in order, as one integer, also when they come from several runs; a
    text without a digit, and a text with more than 4300 digits, gives
    no price.  NULL gives no price and an integer is returned as it is.
    A float is cut to its integer part (towards zero); NaN and the
    infinities give no price.  In particular the field "12,500 toman"
    (in Persian) parses to 12500, the fields "—" and "" have no price,
    a field of 4301 nines has no price, and 12500.99 gives 12500. *)
Theorem parse_price_reads_every_digit :
  (forall s : text,
      parse_price (VText s) =
      if nonempty (filter is_digit s)
      then if (length (filter is_digit s) <=? 4300)%nat
           then Some (int_of_digits (filter is_digit s))
           else None
      else None)
  /\ (forall z : Z, parse_price (VInt z) = Some z)
  /\ parse_price VNull = None
  /\ (forall f : float,
         match Prim2SF f with
         | S754_zero _ => parse_price (VReal f) = Some 0%Z
         | S754_finite sign m e =>
             exists q : Z,
               parse_price (VReal f) = Some (if sign then (- q)%Z else q)
               /\ (q * 2 ^ Z.max 0 (- e) <= Z.pos m * 2 ^ Z.max 0 e
                   < (q + 1) * 2 ^ Z.max 0 (- e))%Z
         | S754_infinity _ | S754_nan => parse_price (VReal f) = None
         end)
  /\ parse_price
       (VText [0x31; 0x32; 0x2C; 0x35; 0x30; 0x30; 0x20;
               0x62A; 0x648; 0x645; 0x627; 0x646]) = Some 12500%Z
  /\ parse_price (VText [0x2014]) = None
  /\ parse_price (VText []) = None
  /\ parse_price (VText (repeat 0x39 4301)) = None
  /\ parse_price (VReal 12500.99%float) = Some 12500%Z
  /\ parse_price (VReal (-12500.99)%float) = Some (-12500)%Z.
Proof.
  split; [exact parse_price_text|].
  do 2 (split; [reflexivity|]).
  split; [exact int_of_float_truncates|].
  repeat split; vm_compute; reflexivity.
Qed.

Lemma passes_price_filter_spec intent d :
  passes_price_filter intent d =
  match price_min (f_price (filters intent)),
        price_max (f_price (filters intent)) with
  | None, None => true
  | lo, hi =>
      match parse_price (d_price d) with
      | None => false
      | Some v => within_bounds lo hi v
      end
  end.
Proof.
  unfold passes_price_filter, within_bounds.
  destruct (price_min (f_price (filters intent))) as [lo|],
           (price_max (f_price (filters intent))) as [hi|];
    try reflexivity;
    destruct (parse_price (d_price d)) as [v|]; try reflexivity.
  - destruct (Z.ltb_spec v lo), (Z.leb_spec lo v); try lia; cbn;
      rewrite Z.gtb_ltb;
      destruct (Z.ltb_spec hi v), (Z.leb_spec v hi); try lia; reflexivity.
  - destruct (Z.ltb_spec v lo), (Z.leb_spec lo v); try lia; reflexivity.
  - rewrite Z.gtb_ltb.
    destruct (Z.ltb_spec hi v), (Z.leb_spec v hi); try lia; reflexivity.
Qed.

(* ================================================================ *)
(** ** Sorting only reorders *)
(* ================================================================ *)

Lemma insert_by_perm {A} (lt : A -> A -> bool) x l :
  Permutation (insert_by lt x l) (x :: l).
Proof.
  induction l as [|y l IH]; [reflexivity|].
  cbn [insert_by]. destruct (lt y x); [|reflexivity].
  rewrite IH. apply perm_swap.
Qed.

Lemma stable_sort_perm {A} (lt : A -> A -> bool) l :
  Permutation (stable_sort lt l) l.
Proof.
  induction l as [|x l IH]; [reflexivity|].
  cbn [stable_sort fold_right]. fold (stable_sort lt l).
  rewrite insert_by_perm. now constructor.
Qed.

Lemma list_sort_perm {A K} (lt : K -> K -> bool) (key : A -> K) rv l :
  Permutation (list_sort lt key rv l) l.
Proof.
  unfold list_sort. destruct rv.
  - rewrite <- Permutation_rev, stable_sort_perm. symmetry.
    apply Permutation_rev.
  - apply stable_sort_perm.
Qed.

Lemma rank_perm spec items : Permutation (rank spec items) items.
Proof. unfold rank. destruct (sort_by spec); apply list_sort_perm. Qed.

(** The row loop keeps the rows that pass the price filter, in order. *)
Lemma collect_items_rows intent rows :
  collect_items intent rows =
  map (fun r => set_score (display r)
                  (compute_relevance_score intent (display r)))
      (filter (fun r => passes_price_filter intent (display r)) rows).
Proof.
  unfold collect_items.
  induction rows as [|r rows IH]; [reflexivity|].
  cbn [map filter].
  destruct (passes_price_filter intent (display r)); cbn [map];
    now rewrite IH.
Qed.

(** C7. Row-local data problems have their defined effect only.  With
    no price bound every row passes the price filter, whether or not its
    price parses; with a bound, a row without a parsable price is
    excluded and a row with one passes exactly when the value lies
    within the bounds that are set.  The stored quantity never decides
    whether a row is kept: the price filter ignores it, the row loop
    keeps exactly the rows that pass the price filter, and ranking
    (also by quantity) only reorders them. *)
Theorem row_local_data_problems_are_not_fatal :
  forall intent : SearchIntent,
    (forall d : Item,
        passes_price_filter intent d =
        match price_min (f_price (filters intent)),
              price_max (f_price (filters intent)) with
        | None, None => true
        | lo, hi =>
            match parse_price (d_price d) with
            | None => false
            | Some v => within_bounds lo hi v
            end
        end)
    /\ (forall (r : Row) (q : value),
           passes_price_filter intent (display (with_qty r q)) =
           passes_price_filter intent (display r))
    /\ (forall rows : list Row,
           collect_items intent rows =
           map (fun r => set_score (display r)
                           (compute_relevance_score intent (display r)))
               (filter (fun r => passes_price_filter intent (display r))
                       rows))
    /\ (forall (spec : SortSpec) (items : list Item),
           Permutation (rank spec items) items).
Proof.
  intros intent. split; [intros d; apply passes_price_filter_spec|].
  split; [reflexivity|].
  split; [apply collect_items_rows | apply rank_perm].
Qed.

(** C6. For every intent, whatever its [limit], the results list has
    [min (count before truncation) (clamp limit 1 50)] entries, where the
    count before truncation is the size of the set left by the price
    filter; the [count] field is that length, and the clamped limit lies
    between 1 and 50. *)
Theorem results_length_is_clamped :
  forall (db : list Row) (intent : SearchIntent),
    let resp := fst (search_on db intent) in
    let clamp := Z.max 1 (Z.min (limit intent) 50) in
    length (resp_results resp)
    = Nat.min (length (post_filter_items db intent)) (Z.to_nat clamp)
    /\ resp_count resp = length (resp_results resp)
    /\ (1 <= clamp <= 50)%Z.
Proof.
  intros db intent resp clamp. subst resp.
  unfold post_filter_items, fetched_rows, search_on.
  fold (normalized_intent intent).
  destruct (fetch_rows db (normalized_intent intent) []) as [rows log].
  cbn [fst resp_results resp_count].
  rewrite length_map, length_firstn.
  rewrite (Permutation_length (rank_perm _ _)).
  unfold limit_final. cbn [limit normalized_intent set_query_text].
  fold clamp. repeat split; lia.
Qed.

(** C10. The stock filter has no effect: replacing [filters.stock] of
    an intent by any other value leaves [build_sql] (statement, SQL text
    and parameters), the fallback statement, the price filter, the
    relevance score, the sort order, the executed statements and the
    whole response unchanged. *)
Theorem stock_filter_is_ignored :
  forall (db : list Row) (intent : SearchIntent) (st : StockFilter),
    build_sql (set_stock intent st) = build_sql intent
    /\ render_statement 8 (fst (build_sql (set_stock intent st)))
       = render_statement 8 (fst (build_sql intent))
    /\ fallback_sql (set_stock intent st) = fallback_sql intent
    /\ (forall d : Item,
           passes_price_filter (set_stock intent st) d
           = passes_price_filter intent d)
    /\ (forall d : Item,
           compute_relevance_score (set_stock intent st) d
           = compute_relevance_score intent d)
    /\ sort_spec (set_stock intent st) = sort_spec intent
    /\ search_on db (set_stock intent st) = search_on db intent
    /\ search (Some db) (set_stock intent st) = search (Some db) intent.
Proof.
  intros db intent st. repeat split; reflexivity.
Qed.

(* ================================================================ *)
(** ** The order of binary64 floats *)
(* ================================================================ *)

Lemma SFltb_asym a b : SFltb a b = true -> SFltb b a = false.
Proof.
  unfold SFltb, SFcompare.
  destruct a as [sa|sa| |sa ma ea], b as [sb|sb| |sb mb eb];
    try destruct sa; try destruct sb; cbn; try congruence;
    compare_cases; cbn; subst; try congruence; try lia.
Qed.

Lemma SFltb_neg_trans a b c :
  not_nan a = true -> not_nan b = true -> not_nan c = true ->
  SFltb a b = false -> SFltb b c = false -> SFltb a c = false.
Proof.
  unfold SFltb, SFcompare.
  destruct a as [sa|sa| |sa ma ea], b as [sb|sb| |sb mb eb],
           c as [sc|sc| |sc mc ec];
    try destruct sa; try destruct sb; try destruct sc; cbn;
    try congruence; intros _ _ _;
    compare_cases; cbn; subst; try congruence; try lia.
Qed.

Lemma SFleb_not_nan a b : SFleb a b = true -> not_nan b = true.
Proof.
  unfold SFleb, SFcompare.
  destruct a as [sa|sa| |sa ma ea], b as [sb|sb| |sb mb eb]; cbn;
    congruence.
Qed.

Lemma SFltb_not_leb a b : SFltb a b = true -> SFleb b a = false.
Proof.
  unfold SFltb, SFleb, SFcompare.
  destruct a as [sa|sa| |sa ma ea], b as [sb|sb| |sb mb eb];
    try destruct sa; try destruct sb; cbn; try congruence;
    compare_cases; cbn; subst; try congruence; try lia.
Qed.

Lemma float_ltb_asym x y :
  PrimFloat.ltb x y = true -> PrimFloat.ltb y x = false.
Proof. rewrite !ltb_spec. apply SFltb_asym. Qed.

Lemma float_below_not_above x y :
  PrimFloat.ltb x y = true -> PrimFloat.leb y x = false.
Proof. rewrite ltb_spec, leb_spec. apply SFltb_not_leb. Qed.

(** Among floats that reached a threshold (so none is NaN), "not less
    than" is transitive. *)
Lemma float_ltb_neg_trans t x y z :
  PrimFloat.leb t x = true -> PrimFloat.leb t y = true ->
  PrimFloat.leb t z = true ->
  PrimFloat.ltb x y = false -> PrimFloat.ltb y z = false ->
  PrimFloat.ltb x z = false.
Proof.
  rewrite !leb_spec, !ltb_spec. intros Hx Hy Hz.
  apply SFltb_neg_trans; eapply SFleb_not_nan; eassumption.
Qed.

(* ================================================================ *)
(** ** Sorting puts the keys in order *)
(* ================================================================ *)

Section SortedBy.

Context {A : Type} (lt : A -> A -> bool) (ok : A -> Prop).
Hypothesis lt_asym : forall a b, lt a b = true -> lt b a = false.
Hypothesis lt_neg_trans :
  forall a b c, ok a -> ok b -> ok c ->
                lt a b = false -> lt b c = false -> lt a c = false.

(** Ascending: no element is less than an earlier one. *)
Lemma insert_by_sorted x l :
  ok x -> Forall ok l ->
  StronglySorted (fun a b => lt b a = false) l ->
  StronglySorted (fun a b => lt b a = false) (insert_by lt x l).
Proof.
  intros Hx Hl Hs. induction l as [|y l IH]; cbn [insert_by].
  - repeat constructor.
  - apply StronglySorted_inv in Hs. destruct Hs as [Hs Hy].
    inversion Hl as [|? ? Hoy Hol]; subst.
    destruct (lt y x) eqn:E.
    + constructor; [now apply IH|].
      eapply Permutation_Forall.
      * symmetry. apply insert_by_perm.
      * constructor; [now apply lt_asym | exact Hy].
    + constructor; [now constructor|].
      constructor; [exact E|].
      rewrite Forall_forall in *. intros z Hz.
      apply lt_neg_trans with (b := y); auto.
Qed.

Lemma stable_sort_sorted l :
  Forall ok l ->
  StronglySorted (fun a b => lt b a = false) (stable_sort lt l).
Proof.
  induction 1 as [|x l Hx Hl IH]; [constructor|].
  cbn [stable_sort fold_right]. fold (stable_sort lt l).
  apply insert_by_sorted; auto.
  eapply Permutation_Forall; [|exact Hl].
  symmetry. apply stable_sort_perm.
Qed.

End SortedBy.

Lemma StronglySorted_snoc {A} (R : A -> A -> Prop) l x :
  StronglySorted R l -> Forall (fun y => R y x) l ->
  StronglySorted R (l ++ [x]).
Proof.
  induction 1 as [|y l Hs IH Hy]; intros Hx; cbn [app].
  - repeat constructor.
  - inversion Hx; subst. constructor; [now apply IH|].
    apply Forall_app. split; [exact Hy | now constructor].
Qed.

Lemma StronglySorted_rev {A} (R : A -> A -> Prop) l :
  StronglySorted R l -> StronglySorted (fun a b => R b a) (rev l).
Proof.
  induction 1 as [|x l Hs IH Hx]; cbn [rev]; [constructor|].
  apply StronglySorted_snoc; [exact IH|].
  now apply Forall_rev.
Qed.

(** With [reverse=True] and keys in a total preorder the result is
    descending: no element is less than a later one. *)
Lemma list_sort_descending {A K} (lt : K -> K -> bool) (key : A -> K)
  (ok : K -> Prop) l :
  (forall a b, lt a b = true -> lt b a = false) ->
  (forall a b c, ok a -> ok b -> ok c ->
                 lt a b = false -> lt b c = false -> lt a c = false) ->
  Forall (fun a => ok (key a)) l ->
  StronglySorted (fun a b => lt (key a) (key b) = false)
                 (list_sort lt key true l).
Proof.
  intros Hasym Htrans Hok. unfold list_sort.
  apply (StronglySorted_rev (fun a b => lt (key b) (key a) = false)).
  apply (stable_sort_sorted (fun a b => lt (key a) (key b))
                            (fun a => ok (key a))).
  - intros a b. apply Hasym.
  - intros a b c. apply Htrans.
  - now apply Forall_rev.
Qed.

(* ================================================================ *)
(** ** The fuzzy fallback *)
(* ================================================================ *)

Lemma nonempty_false {A} (l : list A) : nonempty l = false <-> l = [].
Proof. destruct l; split; intros H; try reflexivity; discriminate. Qed.

Lemma nonempty_true {A} (l : list A) : nonempty l = true <-> l <> [].
Proof.
  destruct l; cbn; split; intros H; try reflexivity; try discriminate.
  now elim H.
Qed.

Lemma normalize_query_normal x :
  normalize_persian (normalize_query x) = normalize_query x.
Proof.
  unfold normalize_query. destruct (nonempty x); [|reflexivity].
  apply normalize_persian_fixpoint.
  - apply normalize_persian_clean.
  - apply normalize_persian_single_spaced.
  - unfold normalize_persian. apply strip_idem.
Qed.

Lemma name_seed_normal intent0 :
  normalize_persian (name_seed (normalized_intent intent0))
  = name_seed (normalized_intent intent0).
Proof.
  unfold name_seed, normalized_intent.
  cbn [filters set_query_text query_text].
  destruct (include (f_name (filters intent0)));
    apply normalize_query_normal.
Qed.

(** The two ways through the [try] block of [search]. *)
Lemma fetch_rows_cases db intent :
  fetch_rows db intent [] =
  let primary :=
    run_statement db (fst (build_sql intent)) (snd (build_sql intent)) in
  if negb (nonempty primary) && nonempty (name_seed intent)
  then (fuzzy_rows (name_seed intent)
          (run_statement db (fst (fallback_sql intent))
                         (snd (fallback_sql intent))),
        [build_sql intent; fallback_sql intent])
  else (primary, [build_sql intent]).
Proof.
  unfold fetch_rows, bind, cur_execute, ret.
  destruct (build_sql intent) as [sql params]. cbn [fst snd app].
  destruct (negb (nonempty (run_statement db sql params))
            && nonempty (name_seed intent)); [|reflexivity].
  destruct (fallback_sql intent) as [fsql p]. reflexivity.
Qed.

Lemma fuzzy_matches_kept seed candidates :
  Forall (fun m => PrimFloat.leb 0.72 (fst m) = true)
         (fuzzy_matches seed candidates).
Proof.
  unfold fuzzy_matches. induction candidates as [|r rs IH]; [constructor|].
  cbn [flat_map]. apply Forall_app. split; [|exact IH].
  destruct (nonempty (normalize_query (name_or_empty r))); [|constructor].
  destruct (PrimFloat.leb 0.72
              (similarity seed (normalize_query (name_or_empty r)))) eqn:E;
    repeat constructor. exact E.
Qed.

Lemma fuzzy_matches_filter seed candidates :
  normalize_persian seed = seed -> seed <> [] ->
  let sim r := similarity seed (normalize_query (name_or_empty r)) in
  fuzzy_matches seed candidates
  = map (fun r => (sim r, r))
        (filter (fun r => PrimFloat.leb 0.72 (sim r)) candidates).
Proof.
  intros Hn Hs sim. unfold fuzzy_matches.
  induction candidates as [|r rs IH]; [reflexivity|].
  cbn [flat_map filter]. rewrite IH. fold (sim r).
  destruct (nonempty (normalize_query (name_or_empty r))) eqn:E.
  - destruct (PrimFloat.leb 0.72 (sim r)); reflexivity.
  - apply nonempty_false in E. subst sim. cbn beta. rewrite E.
    unfold similarity. rewrite Hn.
    change (normalize_persian []) with (@nil N).
    rewrite sequence_ratio_empty by exact Hs.
    reflexivity.
Qed.

(** C4. The fallback stage runs (a second statement, the fallback fetch,
    is executed) exactly when the primary fetch returned no row and the
    name seed is not empty, the seed being the normalized first include
    term of the name filter when that filter has one and the normalized
    query text otherwise.  When it runs, the kept candidates are those
    whose similarity to the seed is at least 0.72, in candidate order
    before sorting; they are then sorted by descending similarity and the
    first 1200 are the rows of the request.  0.72 itself is kept and
    every score below 0.72 is dropped. *)
Theorem fuzzy_fallback_stage :
  forall (db : list Row) (intent0 : SearchIntent),
    let intent := normalized_intent intent0 in
    let seed := name_seed intent in
    let primary := primary_rows db intent0 in
    let candidates := fallback_candidates db intent0 in
    let sim r := similarity seed (normalize_query (name_or_empty r)) in
    let kept := fuzzy_matches seed candidates in
    let ordered := list_sort PrimFloat.ltb fst true kept in
    seed = match include (f_name (filters intent0)) with
           | first :: _ => normalize_query first
           | [] => normalize_query (query_text intent0)
           end
    /\ (snd (search_on db intent0) = [build_sql intent; fallback_sql intent]
        <-> primary = [] /\ seed <> [])
    /\ (snd (search_on db intent0) = [build_sql intent]
        <-> ~ (primary = [] /\ seed <> []))
    /\ (~ (primary = [] /\ seed <> []) -> fetched_rows db intent0 = primary)
    /\ (primary = [] /\ seed <> [] ->
        kept = map (fun r => (sim r, r))
                   (filter (fun r => PrimFloat.leb 0.72 (sim r)) candidates)
        /\ Permutation ordered kept
        /\ StronglySorted
             (fun a b => PrimFloat.ltb (fst a) (fst b) = false) ordered
        /\ fetched_rows db intent0 = map snd (firstn 1200 ordered)
        /\ (length (fetched_rows db intent0) <= 1200)%nat)
    /\ PrimFloat.leb 0.72 0.72 = true
    /\ PrimFloat.leb 0.72 0.71 = false
    /\ (forall x : float,
           PrimFloat.ltb x 0.72 = true -> PrimFloat.leb 0.72 x = false).
Proof.
  intros db intent0 intent seed primary candidates sim kept ordered.
  assert (Hlog : snd (search_on db intent0)
                 = snd (fetch_rows db intent [])).
  { unfold search_on. fold (normalized_intent intent0). fold intent.
    destruct (fetch_rows db intent []) as [rows log]. reflexivity. }
  assert (Hrun : primary = [] /\ seed <> [] <->
                 negb (nonempty primary) && nonempty seed = true).
  { rewrite andb_true_iff, negb_true_iff, nonempty_false, nonempty_true.
    reflexivity. }
  pose proof (fetch_rows_cases db intent) as Hcases.
  cbv zeta in Hcases.
  assert (Hp : run_statement db (fst (build_sql intent))
                             (snd (build_sql intent)) = primary)
    by reflexivity.
  assert (Hc : run_statement db (fst (fallback_sql intent))
                             (snd (fallback_sql intent)) = candidates)
    by reflexivity.
  rewrite Hp, Hc in Hcases. fold seed in Hcases.
  unfold fetched_rows. fold intent. rewrite Hlog, Hcases.
  split.
  { subst seed intent. unfold name_seed, normalized_intent.
    cbn [filters set_query_text query_text]. reflexivity. }
  split.
  { rewrite Hrun.
    destruct (negb (nonempty primary) && nonempty seed); cbn [snd];
      split; intros H; try reflexivity; discriminate H. }
  split.
  { rewrite Hrun.
    destruct (negb (nonempty primary) && nonempty seed); cbn [snd];
      split; intros H; try reflexivity; try discriminate H.
    - now elim H.
    - discriminate. }
  split.
  { rewrite Hrun. intros H. apply not_true_is_false in H. now rewrite H. }
  split.
  { intros H. pose proof H as [_ Hseed]. apply Hrun in H. rewrite H.
    cbn [fst]. unfold fuzzy_rows. fold kept. fold ordered.
    split.
    { apply fuzzy_matches_filter; [apply name_seed_normal | exact Hseed]. }
    split; [apply list_sort_perm|].
    split.
    { apply (list_sort_descending PrimFloat.ltb fst
               (fun x => PrimFloat.leb 0.72 x = true)).
      - apply float_ltb_asym.
      - intros a b c. apply float_ltb_neg_trans.
      - apply fuzzy_matches_kept. }
    split; [reflexivity|].
    rewrite length_map, length_firstn. lia. }
  split; [reflexivity|].
  split; [reflexivity|].
  intros x. apply float_below_not_above.
Qed.

(* ================================================================ *)
(** ** Uploaded-only rows *)
(* ================================================================ *)

Lemma firstn_In {A} (n : nat) (l : list A) x :
  In x (firstn n l) -> In x l.
Proof.
  intros H. rewrite <- (firstn_skipn n l). apply in_or_app. now left.
Qed.

Lemma run_statement_In db st ps r :
  In r (run_statement db st ps) ->
  In r db /\ eval_where (st_where st) ps r = true.
Proof.
  unfold run_statement. intros H.
  apply firstn_In in H. now apply filter_In in H.
Qed.

(** What the two [uploaded_only] entries require of a row. *)
Lemma uploaded_clauses_hold intent w ps r :
  uploaded_only intent = true ->
  eval_where (uploaded_clauses intent ++ w) ps r = true ->
  exists g, r_groupfamily r = Some g /\ sqlite_trim g <> [].
Proof.
  unfold uploaded_clauses. intros -> H.
  cbn [app eval_where eval_cond arity firstn skipn field] in H.
  destruct (r_groupfamily r) as [g|]; [|discriminate].
  exists g. split; [reflexivity|].
  apply nonempty_true.
  cbn [andb] in H. apply andb_prop in H. tauto.
Qed.

Lemma build_sql_starts_with_uploaded intent :
  exists w, st_where (fst (build_sql intent)) = uploaded_clauses intent ++ w.
Proof.
  unfold build_sql, build_where. cbn [fst st_where emit_all fold_right].
  unfold emit_app at 1. cbn [fst]. eexists. reflexivity.
Qed.

Lemma fallback_sql_starts_with_uploaded intent :
  exists w,
    st_where (fst (fallback_sql intent)) = uploaded_clauses intent ++ w.
Proof. unfold fallback_sql. cbn [fst st_where]. eexists. reflexivity. Qed.

Lemma fuzzy_matches_In seed candidates m :
  In m (fuzzy_matches seed candidates) -> In (snd m) candidates.
Proof.
  unfold fuzzy_matches. intros H. apply in_flat_map in H.
  destruct H as (r & Hr & H).
  destruct (nonempty (normalize_query (name_or_empty r))); [|contradiction].
  destruct (PrimFloat.leb 0.72 _); [|contradiction].
  destruct H as [<- | []]. exact Hr.
Qed.

Lemma fuzzy_rows_In seed candidates r :
  In r (fuzzy_rows seed candidates) -> In r candidates.
Proof.
  unfold fuzzy_rows. intros H. apply in_map_iff in H.
  destruct H as (m & <- & H). apply firstn_In in H.
  apply fuzzy_matches_In with (seed := seed).
  apply (Permutation_in _ (list_sort_perm _ _ _ _)) in H. exact H.
Qed.

(** Every row that enters the row loop satisfied the WHERE clause of the
    primary or of the fallback statement. *)
Lemma fetched_rows_In db intent0 r :
  In r (fetched_rows db intent0) ->
  In r db
  /\ (eval_where (st_where (fst (build_sql (normalized_intent intent0))))
                 (snd (build_sql (normalized_intent intent0))) r = true
      \/ eval_where
           (st_where (fst (fallback_sql (normalized_intent intent0))))
           (snd (fallback_sql (normalized_intent intent0))) r = true).
Proof.
  unfold fetched_rows. rewrite fetch_rows_cases. cbv zeta.
  destruct (negb _ && _); cbn [fst]; intros H.
  - apply fuzzy_rows_In in H. apply run_statement_In in H. tauto.
  - apply run_statement_In in H. tauto.
Qed.

Lemma search_results_from_rows db intent0 res :
  In res (resp_results (fst (search_on db intent0))) ->
  exists r, In r (fetched_rows db intent0)
            /\ res_groupfamily res = normalize_persian_opt (r_groupfamily r).
Proof.
  unfold fetched_rows, search_on. fold (normalized_intent intent0).
  destruct (fetch_rows db (normalized_intent intent0) []) as [rows log].
  cbn [fst resp_results]. intros H.
  apply in_map_iff in H. destruct H as (it & <- & H).
  apply firstn_In in H.
  apply (Permutation_in _ (rank_perm _ _)) in H.
  unfold collect_items in H. apply in_map_iff in H.
  destruct H as (d & <- & H). apply filter_In in H. destruct H as [H _].
  apply in_map_iff in H. destruct H as (r & <- & H).
  exists r. split; [exact H | reflexivity].
Qed.

Lemma map_char_ink c :
  visible c = true -> exists c', map_char c = [c'] /\ is_space c' = false.
Proof.
  unfold visible, map_char. intros H.
  apply andb_prop in H. destruct H as [H H3].
  apply andb_prop in H. destruct H as [H1 H2].
  apply negb_true_iff in H1, H2, H3.
  destruct (c =? 0x64A); [now exists 0x6CC|].
  destruct (c =? 0x643); [now exists 0x6A9|].
  rewrite H2, H3. now exists c.
Qed.

Lemma apply_mapping_ink s :
  existsb visible s = true -> has_ink (apply_mapping s).
Proof.
  rewrite apply_mapping_flat_map. intros H.
  apply existsb_exists in H. destruct H as (c & Hin & Hv).
  destruct (map_char_ink c Hv) as (c' & Hm & Hs).
  exists c'. split; [|exact Hs].
  apply in_flat_map. exists c. split; [exact Hin|].
  rewrite Hm. now left.
Qed.

Lemma sub_spaces_ink b s : has_ink s -> has_ink (sub_spaces b s).
Proof.
  intros (c & Hin & Hs). exists c. split; [|exact Hs].
  revert b. induction s as [|x s IH]; intros b; [contradiction|].
  cbn [sub_spaces]. destruct Hin as [-> | Hin].
  - rewrite Hs. now left.
  - destruct (is_space x); [destruct b|]; try right; now apply IH.
Qed.

Lemma dropWhile_ink s : has_ink s -> has_ink (dropWhile is_space s).
Proof.
  intros (c & Hin & Hs). exists c. split; [|exact Hs].
  induction s as [|x s IH]; [contradiction|].
  cbn [dropWhile]. destruct (is_space x) eqn:E.
  - destruct Hin as [-> | Hin]; [congruence | now apply IH].
  - exact Hin.
Qed.

Lemma rev_ink s : has_ink s -> has_ink (rev s).
Proof.
  intros (c & Hin & Hs). exists c. split; [|exact Hs]. now apply in_rev in Hin.
Qed.

Lemma normalize_persian_ink s :
  existsb visible s = true -> normalize_persian s <> [].
Proof.
  intros H. apply apply_mapping_ink in H.
  apply (sub_spaces_ink false) in H.
  apply dropWhile_ink, rev_ink, dropWhile_ink, rev_ink in H.
  destruct H as (c & Hin & _).
  unfold normalize_persian, strip, rstrip, lstrip, collapse_spaces.
  intros E. rewrite E in Hin. contradiction.
Qed.

(** C3 (as amended). For every intent with [uploaded_only = true], every
    row that enters the result pipeline, from the primary fetch or from
    the fuzzy fallback, is a stored row whose groupfamily field is not
    NULL and is not empty after SQL [TRIM] (which removes U+0020 only);
    every entry of the results list exposes the normalized display copy
    of the groupfamily field of such a row, and that copy is not empty
    as soon as the stored field has a character other than whitespace,
    ZWNJ and tatweel. *)
Theorem uploaded_only_rows_are_tagged :
  forall (db : list Row) (intent : SearchIntent),
    uploaded_only intent = true ->
    Forall (fun r =>
              In r db
              /\ exists g, r_groupfamily r = Some g /\ sqlite_trim g <> [])
           (fetched_rows db intent)
    /\ Forall (fun res =>
                 exists r g,
                   In r db
                   /\ r_groupfamily r = Some g
                   /\ sqlite_trim g <> []
                   /\ res_groupfamily res = normalize_persian g
                   /\ (existsb visible g = true ->
                       res_groupfamily res <> []))
              (resp_results (fst (search_on db intent))).
Proof.
  intros db intent Hup.
  assert (Hrows : forall r, In r (fetched_rows db intent) ->
            In r db
            /\ exists g, r_groupfamily r = Some g /\ sqlite_trim g <> []).
  { intros r Hr. apply fetched_rows_In in Hr. destruct Hr as [Hdb Hw].
    split; [exact Hdb|].
    assert (Hup' : uploaded_only (normalized_intent intent) = true)
      by exact Hup.
    destruct Hw as [Hw | Hw].
    - destruct (build_sql_starts_with_uploaded (normalized_intent intent))
        as [w Hq].
      rewrite Hq in Hw. eapply uploaded_clauses_hold; eassumption.
    - destruct (fallback_sql_starts_with_uploaded
                  (normalized_intent intent)) as [w Hq].
      rewrite Hq in Hw. eapply uploaded_clauses_hold; eassumption. }
  split.
  - apply Forall_forall. exact Hrows.
  - apply Forall_forall. intros res Hres.
    apply search_results_from_rows in Hres.
    destruct Hres as (r & Hr & Hgf).
    destruct (Hrows r Hr) as (Hdb & g & Hg & Ht).
    exists r, g. rewrite Hgf, Hg. cbn [normalize_persian_opt].
    repeat split; auto. apply normalize_persian_ink.
Qed.

(* ================================================================ *)
(** ** Category auto-expand *)
(* ================================================================ *)

Lemma text_eqb_refl a : text_eqb a a = true.
Proof.
  induction a as [|x a IH]; [reflexivity|].
  cbn [text_eqb]. now rewrite N.eqb_refl, IH.
Qed.

Lemma matches_eq_param c :
  matches_categories ([EqParam COL_CAT], [c]) [c].
Proof.
  intros r. cbn [fst snd eval_where eval_cond arity firstn skipn field].
  destruct (r_category_code r); cbn [existsb];
    now rewrite ?andb_true_r, ?orb_false_r.
Qed.

Lemma matches_in_params cats :
  matches_categories ([InParams COL_CAT (length cats)], cats) cats.
Proof.
  intros r. cbn [fst snd eval_where eval_cond arity field].
  rewrite firstn_all. destruct (r_category_code r);
    now rewrite ?andb_true_r.
Qed.

Lemma texts_eqb_length a b :
  texts_eqb a b = true -> length a = length b.
Proof.
  revert b. induction a as [|x a IH]; intros [|y b] H;
    try reflexivity; try discriminate.
  cbn [texts_eqb] in H. apply andb_prop in H. cbn [length].
  f_equal. now apply IH.
Qed.

(** C5. When the resolved category list is exactly ["s"]: with a pen
    keyword in the normalized query text the compiled category
    predicate is [IN (?, ?)] over "s" and "l" and accepts exactly the
    rows of category "s" or "l"; without one it is [= ?] over "s" and
    accepts exactly the rows of category "s".  When a list supplies two
    or more (non-blank) codes nothing is added: the predicate is [IN]
    over exactly the supplied codes.  The category predicate sits in the
    WHERE list right after the uploaded-only entries. *)
Theorem category_auto_expand :
  forall intent : SearchIntent,
    let has_keyword :=
      existsb (fun k => contains k (normalize_persian (query_text intent)))
              pen_keywords in
    (category_given (category_code intent) = true ->
     listed_cats (category_code intent) = [txt "s"] ->
     (has_keyword = true ->
      category_clauses intent
      = ([InParams COL_CAT 2], [txt "s"; txt "l"])
      /\ matches_categories (category_clauses intent) [txt "s"; txt "l"])
     /\ (has_keyword = false ->
         category_clauses intent = ([EqParam COL_CAT], [txt "s"])
         /\ matches_categories (category_clauses intent) [txt "s"]))
    /\ (forall codes : list text,
           category_code intent = CatList codes ->
           (2 <= length (filter (fun c => nonempty (strip c)) codes))%nat ->
           let cats :=
             map clean_code (filter (fun c => nonempty (strip c)) codes) in
           widened_cats intent = cats
           /\ category_clauses intent
              = ([InParams COL_CAT (length cats)], cats)
           /\ matches_categories (category_clauses intent) cats)
    /\ (exists rest : emitted,
           build_where intent
           = emit_app (uploaded_clauses intent, [])
                      (emit_app (category_clauses intent) rest)).
Proof.
  intros intent has_keyword. split; [|split].
  - intros Hgiven Hcats. unfold category_clauses, widened_cats.
    rewrite Hgiven, Hcats. fold has_keyword.
    change (texts_eqb [txt "s"] [txt "s"]) with true. cbn [andb].
    split; intros ->.
    + split; [reflexivity|]. apply (matches_in_params [txt "s"; txt "l"]).
    + split; [reflexivity|]. apply matches_eq_param.
  - intros codes Hcc Hlen cats.
    assert (Hw : widened_cats intent = cats).
    { unfold widened_cats. rewrite Hcc. cbn [listed_cats]. fold cats.
      destruct (texts_eqb cats [txt "s"]) eqn:E; [|reflexivity].
      apply texts_eqb_length in E. subst cats.
      rewrite length_map in E. cbn [length] in E. lia. }
    assert (Hg : category_given (category_code intent) = true).
    { rewrite Hcc. cbn [category_given].
      destruct codes; [cbn in Hlen; lia | reflexivity]. }
    assert (Hc : category_clauses intent
                 = ([InParams COL_CAT (length cats)], cats)).
    { unfold category_clauses. rewrite Hg, Hw.
      assert (2 <= length cats)%nat
        by (subst cats; now rewrite length_map).
      destruct cats as [|c1 [|c2 cats']]; cbn [length] in *;
        try lia; reflexivity. }
    split; [exact Hw|]. split; [exact Hc|].
    rewrite Hc. apply matches_in_params.
  - unfold build_where. cbn [emit_all fold_right]. eexists. reflexivity.
Qed.

(* ================================================================ *)
(** ** Brand aliases *)
(* ================================================================ *)

Lemma entry_matches_own k A x :
  In x (k :: A) -> entry_matches (norm_lower x) (k, A) = true.
Proof.
  intros H. unfold entry_matches. cbn [fst snd].
  apply existsb_exists. exists (norm_lower x).
  split; [now apply in_map | apply text_eqb_refl].
Qed.

Lemma expand_in_first_match pre k A post t u :
  (forall e, In e pre -> entry_matches t e = false) ->
  entry_matches t (k, A) = true ->
  expand_in (pre ++ (k, A) :: post) t u = k :: A.
Proof.
  intros Hpre Hm. induction pre as [|[k' A'] pre IH]; cbn [app expand_in].
  - unfold entry_matches in Hm. cbn [fst snd] in Hm. now rewrite Hm.
  - pose proof (Hpre (k', A') (or_introl eq_refl)) as H0.
    unfold entry_matches in H0. cbn [fst snd] in H0. rewrite H0.
    apply IH. intros e He. apply Hpre. now right.
Qed.

Lemma expand_in_no_match aliases t u :
  (forall e, In e aliases -> entry_matches t e = false) ->
  expand_in aliases t u = [u].
Proof.
  induction aliases as [|[k A] aliases IH]; intros H; [reflexivity|].
  cbn [expand_in].
  pose proof (H (k, A) (or_introl eq_refl)) as H0.
  unfold entry_matches in H0. cbn [fst snd] in H0. rewrite H0.
  apply IH. intros e He. apply H. now right.
Qed.

Lemma norm_lower_normalized x :
  norm_lower (normalize_persian x) = norm_lower x.
Proof.
  unfold norm_lower. f_equal. apply normalize_persian_fixpoint.
  - apply normalize_persian_clean.
  - apply normalize_persian_single_spaced.
  - unfold normalize_persian. apply strip_idem.
Qed.

(** The OR group a publisher include term compiles to when its first
    matching entry is [(k, A)]. *)
Lemma include_clause_publisher pre k A post x :
  BRAND_ALIASES = pre ++ (k, A) :: post ->
  In x (k :: A) ->
  (forall e, In e pre -> entry_matches (norm_lower x) e = false) ->
  normalize_persian x <> [] ->
  include_clause COL_PUBLISHER x
  = ([AnyLike (repeat COL_PUBLISHER (S (length A)))],
     map (fun term => like_pattern (normalize_persian term)) (k :: A)).
Proof.
  intros HB Hx Hpre Hne. unfold include_clause.
  apply nonempty_true in Hne. rewrite Hne.
  assert (HBne : nonempty BRAND_ALIASES = true)
    by (rewrite HB; now destruct pre).
  rewrite HBne. cbn [column_eqb andb].
  unfold expand_brand_terms. rewrite norm_lower_normalized, HB.
  rewrite expand_in_first_match;
    [reflexivity | exact Hpre | now apply entry_matches_own].
Qed.

(** C8 (as amended). Lookup returns the first entry of the alias map
    that contains the term.  So for an entry [(k, A)] of the loaded map
    and an alias [a] in [A], when no earlier entry contains [k] or [a]
    (after normalization and lower-casing), expanding [k] and expanding
    [a] both give the full group [k :: A], and, both being non-empty
    after normalization, publisher include=[k] and include=[a] compile
    to the same OR group over that full group.  A term that no entry
    contains expands to the singleton of itself. *)
Theorem alias_lookup_first_entry_wins :
  forall (pre post : list (text * list text)) (k : text) (A : list text)
         (a : text),
    BRAND_ALIASES = pre ++ (k, A) :: post ->
    In a A ->
    (forall e, In e pre -> entry_matches (norm_lower k) e = false) ->
    (forall e, In e pre -> entry_matches (norm_lower a) e = false) ->
    expand_brand_terms k = k :: A
    /\ expand_brand_terms a = k :: A
    /\ (normalize_persian k <> [] -> normalize_persian a <> [] ->
        include_clause COL_PUBLISHER k
        = ([AnyLike (repeat COL_PUBLISHER (S (length A)))],
           map (fun term => like_pattern (normalize_persian term)) (k :: A))
        /\ include_clause COL_PUBLISHER a = include_clause COL_PUBLISHER k
        /\ apply_text_filter COL_PUBLISHER
             {| include := [a]; exclude := [] |}
           = apply_text_filter COL_PUBLISHER
               {| include := [k]; exclude := [] |})
    /\ (forall t : text,
           (forall e, In e BRAND_ALIASES ->
                      entry_matches (norm_lower t) e = false) ->
           expand_brand_terms t = [t]).
Proof.
  intros pre post k A a HB Ha Hk Hpa.
  split; [|split; [|split]].
  - unfold expand_brand_terms. rewrite HB.
    apply expand_in_first_match; [exact Hk|].
    apply entry_matches_own. now left.
  - unfold expand_brand_terms. rewrite HB.
    apply expand_in_first_match; [exact Hpa|].
    apply entry_matches_own. now right.
  - intros Hkn Han.
    assert (Ek := include_clause_publisher pre k A post k HB
                    (or_introl eq_refl) Hk Hkn).
    assert (Ea := include_clause_publisher pre k A post a HB
                    (or_intror Ha) Hpa Han).
    split; [exact Ek|]. split; [now rewrite Ea, Ek|].
    unfold apply_text_filter. cbn [include exclude map].
    cbn [emit_all fold_right]. now rewrite Ea, Ek.
  - intros t Ht. unfold expand_brand_terms. now apply expand_in_no_match.
Qed.

(* ================================================================ *)
(** ** Missing values in the price and quantity orders *)
(* ================================================================ *)

Lemma null_key_lt_values u v :
  null_key_lt (null_last_key u) (null_last_key v) =
  match u, v with
  | Some x, Some y => (x <? y)%Z
  | Some _, None => true
  | None, _ => false
  end.
Proof. destruct u, v; reflexivity. Qed.

Lemma StronglySorted_weaken {A} (R R' : A -> A -> Prop) l :
  (forall a b, R a b -> R' a b) ->
  StronglySorted R l -> StronglySorted R' l.
Proof.
  intros HR. induction 1 as [|x l Hs IH Hx]; constructor; [exact IH|].
  eapply Forall_impl; [|exact Hx]. intros b. apply HR.
Qed.

(** Ascending, the key [(v is None, v)] puts the missing values last. *)
Lemma ascending_sort_nulls_last {A} (v : A -> option Z) l :
  StronglySorted (fun a b => v a = None -> v b = None)
    (list_sort null_key_lt (fun x => null_last_key (v x)) false l).
Proof.
  unfold list_sort.
  apply StronglySorted_weaken
    with (R := fun a b =>
                 null_key_lt (null_last_key (v b)) (null_last_key (v a))
                 = false).
  - intros a b H Ha. rewrite null_key_lt_values, Ha in H.
    destruct (v b); [discriminate | reflexivity].
  - apply (stable_sort_sorted
             (fun a b => null_key_lt (null_last_key (v a))
                                     (null_last_key (v b)))
             (fun _ => True)).
    + intros a b. rewrite !null_key_lt_values.
      destruct (v a), (v b); try congruence.
      intros H. apply Z.ltb_lt in H. apply Z.ltb_ge. lia.
    + intros a b c _ _ _. rewrite !null_key_lt_values.
      destruct (v a), (v b), (v c); try congruence.
      intros H1 H2. apply Z.ltb_ge in H1, H2. apply Z.ltb_ge. lia.
    + apply Forall_forall. intros; exact I.
Qed.

(** In the ascending direction both orders keep rows without a value
    after the rows with one. *)
Lemma rank_ascending_nulls_last items :
  StronglySorted
    (fun a b => d_price_value a = None -> d_price_value b = None)
    (rank {| sort_by := by_price; direction := asc |} items)
  /\ StronglySorted
       (fun a b => d_qty_value a = None -> d_qty_value b = None)
       (rank {| sort_by := by_qty; direction := asc |} items).
Proof.
  split; unfold rank; cbn [sort_by direction];
    apply ascending_sort_nulls_last.
Qed.

(* ================================================================ *)
(** ** More on the normalizers *)
(* ================================================================ *)

(** X1. The result of [normalize_persian] has none of the characters the
    mapping rewrites (Arabic yeh, Arabic kaf, ZWNJ, tatweel); its only
    whitespace is single U+0020 characters between other characters; and
    it neither starts nor ends with whitespace. *)
Theorem normalize_persian_output_shape :
  forall s : text,
    let out := normalize_persian s in
    Forall (fun c => c <> 0x64A /\ c <> 0x643 /\ c <> 0x200C /\ c <> 0x640)
           out
    /\ single_spaced false out = true
    /\ lstrip out = out
    /\ rstrip out = out.
Proof.
  intros s out. subst out. split; [|split; [|split]].
  - eapply Forall_impl; [|apply normalize_persian_clean].
    intros c Hc. unfold is_source in Hc.
    repeat (apply orb_false_elim in Hc; destruct Hc as [Hc ?]).
    repeat split; intros ->; discriminate.
  - apply normalize_persian_single_spaced.
  - unfold normalize_persian, strip.
    destruct (lstrip_head (collapse_spaces (apply_mapping s)))
      as [H | (c & r & H & Hc)]; rewrite H; [reflexivity|].
    rewrite rstrip_cons by exact Hc. unfold lstrip. cbn [dropWhile].
    now rewrite Hc.
  - unfold normalize_persian, strip. apply rstrip_idem.
Qed.

Lemma map_char_Forall (P : N -> Prop) c :
  P 0x6CC -> P 0x6A9 -> P 0x20 -> P c -> Forall P (map_char c).
Proof.
  intros H1 H2 H3 Hc. unfold map_char.
  repeat match goal with |- context [if ?b then _ else _] => destruct b end;
    repeat constructor; assumption.
Qed.

Lemma sub_spaces_Forall (P : N -> Prop) b s :
  P 0x20 -> Forall P s -> Forall P (sub_spaces b s).
Proof.
  intros H0 Hs. revert b.
  induction Hs as [|c t Hc _ IH]; intros b; [constructor|].
  cbn [sub_spaces]. destruct (is_space c); [destruct b|];
    try constructor; auto.
Qed.

(** A property of characters that holds of the replacement characters
    survives normalization. *)
Lemma normalize_persian_Forall (P : N -> Prop) s :
  P 0x6CC -> P 0x6A9 -> P 0x20 -> Forall P s -> Forall P (normalize_persian s).
Proof.
  intros H1 H2 H3 Hs. unfold normalize_persian, collapse_spaces.
  apply strip_Forall.
  assert (Hm : Forall P (apply_mapping s)).
  { rewrite apply_mapping_flat_map.
    induction Hs as [|c s Hc _ IH]; [constructor|].
    cbn [flat_map]. apply Forall_app. split; [|exact IH].
    now apply map_char_Forall. }
  now apply sub_spaces_Forall.
Qed.

Lemma filter_all {A} (p : A -> bool) l :
  Forall (fun x => p x = true) l -> filter p l = l.
Proof.
  induction 1 as [|x l Hx _ IH]; [reflexivity|].
  cbn [filter]. now rewrite Hx, IH.
Qed.

Lemma normalize_query_no_question_mark s :
  Forall (fun c => negb ((c =? 0x61F) || (c =? 0x3F)) = true)
         (normalize_query s).
Proof.
  unfold normalize_query. destruct (nonempty s); [|constructor].
  apply normalize_persian_Forall; try reflexivity.
  unfold collapse_spaces. apply sub_spaces_Forall; [reflexivity|].
  apply Forall_forall. intros c Hc.
  unfold drop_question_marks in Hc. now apply filter_In in Hc.
Qed.

Lemma normalize_query_stripped s :
  strip (normalize_query s) = normalize_query s
  /\ single_spaced false (normalize_query s) = true.
Proof.
  unfold normalize_query. destruct (nonempty s); [|split; reflexivity].
  split; [unfold normalize_persian; apply strip_idem|].
  apply normalize_persian_single_spaced.
Qed.

(** Each step of [normalize_query] leaves a normalized query as it is. *)
Lemma normalize_query_steps_fixed q :
  strip q = q ->
  Forall (fun c => negb ((c =? 0x61F) || (c =? 0x3F)) = true) q ->
  single_spaced false q = true ->
  normalize_persian q = q ->
  normalize_query q = q.
Proof.
  intros Hstrip Hq Hsp Hnp. unfold normalize_query.
  destruct (nonempty q) eqn:E; [|now apply nonempty_false in E].
  rewrite Hstrip. unfold drop_question_marks. rewrite (filter_all _ _ Hq).
  unfold collapse_spaces. now rewrite (sub_spaces_fixed _ _ Hsp).
Qed.

(** X2. [normalize_query] is idempotent; its result holds no question
    mark (ASCII or Arabic) and is left unchanged by [normalize_persian]. *)
Theorem normalize_query_idempotent :
  forall s : text,
    normalize_query (normalize_query s) = normalize_query s
    /\ Forall (fun c => c <> 0x3F /\ c <> 0x61F) (normalize_query s)
    /\ normalize_persian (normalize_query s) = normalize_query s.
Proof.
  intros s. split; [|split].
  - apply normalize_query_steps_fixed.
    + apply normalize_query_stripped.
    + apply normalize_query_no_question_mark.
    + apply normalize_query_stripped.
    + apply normalize_query_normal.
  - eapply Forall_impl; [|apply normalize_query_no_question_mark].
    intros c Hc.
    apply negb_true_iff, orb_false_elim in Hc. destruct Hc as [Ha Hb].
    split; intros ->; discriminate.
  - apply normalize_query_normal.
Qed.

(* ---------------------------------------------------------------- *)
(** *** The normalizer of the export pipeline *)

Lemma replace_table_app (m : list (N * text)) s t :
  fold_left (fun acc ab => replace_char (fst ab) (snd ab) acc) m (s ++ t)
  = fold_left (fun acc ab => replace_char (fst ab) (snd ab) acc) m s
    ++ fold_left (fun acc ab => replace_char (fst ab) (snd ab) acc) m t.
Proof.
  revert s t. induction m as [|[a b] m IH]; intros s t; [reflexivity|].
  cbn [fold_left fst snd]. now rewrite replace_char_app, IH.
Qed.

Lemma dbmaker_normalize_one c : dbmaker_normalize_persian [c] = dbmaker_char c.
Proof.
  unfold dbmaker_normalize_persian, dbmaker_mapping, dbmaker_char,
    replace_char.
  cbn [fold_left fst snd flat_map app].
  repeat (match goal with
          | |- context [if ?x =? ?y then _ else _] =>
              destruct (x =? y) eqn:?; cbn [flat_map app]
          end; try reflexivity).
Qed.

Lemma dbmaker_normalize_flat_map s :
  dbmaker_normalize_persian s = flat_map dbmaker_char s.
Proof.
  induction s as [|c s IH]; [reflexivity|].
  change (c :: s) with ([c] ++ s).
  unfold dbmaker_normalize_persian in *. rewrite replace_table_app, IH.
  fold (dbmaker_normalize_persian [c]). now rewrite dbmaker_normalize_one.
Qed.

Lemma dbmaker_char_clean c :
  Forall (fun x => dbmaker_source x = false) (dbmaker_char c).
Proof.
  unfold dbmaker_char.
  destruct (c =? 0x64A) eqn:E1; [repeat constructor|].
  destruct (c =? 0x649) eqn:E2; [repeat constructor|].
  destruct (c =? 0x626) eqn:E3; [repeat constructor|].
  destruct (c =? 0x643) eqn:E4; [repeat constructor|].
  destruct (c =? 0x629) eqn:E5; [repeat constructor|].
  destruct (c =? 0x200C) eqn:E6; [constructor|].
  destruct (c =? 0x640) eqn:E7; [constructor|].
  repeat constructor. unfold dbmaker_source, dbmaker_mapping.
  cbn [map fst existsb]. now rewrite E1, E2, E3, E4, E5, E6, E7.
Qed.

Lemma dbmaker_char_fixed c :
  dbmaker_source c = false -> dbmaker_char c = [c].
Proof.
  unfold dbmaker_source, dbmaker_mapping, dbmaker_char.
  cbn [map fst existsb]. intros H.
  repeat (apply orb_false_elim in H; destruct H as [? H]).
  repeat match goal with E : (c =? _) = false |- _ => rewrite E; clear E end.
  reflexivity.
Qed.

(** X3. The normalizer of the export pipeline (dbmaker.py) removes every
    Arabic yeh variant, Arabic kaf, teh marbuta, ZWNJ and tatweel, is
    idempotent, and the variant of Normalizer.py (the same followed by
    [strip()]) is idempotent too. *)
Theorem dbmaker_normalize_persian_idempotent :
  forall s : text,
    Forall (fun c => dbmaker_source c = false) (dbmaker_normalize_persian s)
    /\ dbmaker_normalize_persian (dbmaker_normalize_persian s)
       = dbmaker_normalize_persian s
    /\ normalizer_normalize_persian (normalizer_normalize_persian s)
       = normalizer_normalize_persian s.
Proof.
  intros s.
  assert (Hclean : Forall (fun c => dbmaker_source c = false)
                          (dbmaker_normalize_persian s)).
  { rewrite dbmaker_normalize_flat_map.
    induction s as [|c s IH]; [constructor|].
    cbn [flat_map]. apply Forall_app. split; [apply dbmaker_char_clean|].
    exact IH. }
  assert (Hfix : forall t, Forall (fun c => dbmaker_source c = false) t ->
                           dbmaker_normalize_persian t = t).
  { intros t Ht. rewrite dbmaker_normalize_flat_map.
    induction Ht as [|c t Hc _ IH]; [reflexivity|].
    cbn [flat_map]. now rewrite IH, dbmaker_char_fixed. }
  split; [exact Hclean|]. split; [now apply Hfix|].
  unfold normalizer_normalize_persian.
  fold (dbmaker_normalize_persian s).
  fold (dbmaker_normalize_persian (strip (dbmaker_normalize_persian s))).
  rewrite Hfix by (apply strip_Forall, Hclean).
  apply strip_idem.
Qed.

(** X4. On a text without ZWNJ, alef maksura, yeh with hamza and teh
    marbuta, cleaning by the export pipeline first does not change what
    the API normalizer returns: a name stored by dbmaker.py and the raw
    name normalize to the same text. *)
Theorem api_normalizer_absorbs_dbmaker :
  forall s : text,
    Forall (fun c => normalizers_differ_on c = false) s ->
    normalize_persian (dbmaker_normalize_persian s) = normalize_persian s.
Proof.
  intros s Hs. unfold normalize_persian. do 2 f_equal.
  rewrite !apply_mapping_flat_map, dbmaker_normalize_flat_map.
  induction Hs as [|c s Hc _ IH]; [reflexivity|].
  cbn [flat_map]. rewrite flat_map_app, IH. f_equal.
  unfold normalizers_differ_on in Hc.
  repeat (apply orb_false_elim in Hc; destruct Hc as [Hc ?]).
  unfold dbmaker_char, map_char. rewrite Hc, H1, H0, H.
  destruct (c =? 0x64A) eqn:E1; [reflexivity|].
  destruct (c =? 0x643) eqn:E2; [reflexivity|].
  destruct (c =? 0x640) eqn:E4; cbn [flat_map app];
    rewrite ?E1, ?E2, ?Hc, ?E4; reflexivity.
Qed.

(* ================================================================ *)
(** ** More on the price parser *)
(* ================================================================ *)

Lemma digit_in_bound zeros c d : digit_in zeros c = Some d -> d < 10.
Proof.
  induction zeros as [|z zs IH]; cbn [digit_in]; [discriminate|].
  destruct ((z <=? c) && (c <? z + 10)) eqn:E; [|exact IH].
  apply andb_prop in E. destruct E as [E1 E2].
  apply N.leb_le in E1. apply N.ltb_lt in E2.
  intros [= <-]. lia.
Qed.

Lemma digit_value_ascii d : d < 10 -> digit_value (0x30 + d) = Some d.
Proof.
  intros Hd. unfold digit_value, digit_zero_table. cbn [digit_in].
  replace (0x30 <=? 0x30 + d) with true
    by (symmetry; apply N.leb_le; lia).
  replace (0x30 + d <? 0x30 + 10) with true
    by (symmetry; apply N.ltb_lt; lia).
  cbn [andb]. f_equal. lia.
Qed.

Lemma digit_value_ascii_digit c : digit_value (ascii_digit c) = digit_value c.
Proof.
  unfold ascii_digit. destruct (digit_value c) as [d|] eqn:E; [|exact E].
  apply digit_value_ascii. now apply digit_in_bound in E.
Qed.

Lemma int_of_digits_from_nonneg s acc :
  (0 <= acc)%Z ->
  (0 <= fold_left
          (fun acc c => match digit_value c with
                        | Some d => 10 * acc + Z.of_N d
                        | None => acc
                        end) s acc)%Z.
Proof.
  revert acc. induction s as [|c s IH]; intros acc H; [exact H|].
  cbn [fold_left]. apply IH. destruct (digit_value c); lia.
Qed.

(** X5. A price read from a text is never negative: signs, decimal points
    and every other non-digit are dropped before the digits are read. *)
Theorem parse_price_text_is_not_negative :
  forall s : text,
    match parse_price (VText s) with
    | Some v => (0 <= v)%Z
    | None => True
    end.
Proof.
  intros s. rewrite parse_price_text. unfold int_of_digit_text.
  destruct (nonempty (filter is_digit s)); [|exact I].
  destruct (length (filter is_digit s) <=? int_max_str_digits)%nat;
    [|exact I].
  unfold int_of_digits. apply int_of_digits_from_nonneg. lia.
Qed.

(** X6. Inserting a character that is not a decimal digit anywhere in a
    price field does not change the parsed price. *)
Theorem parse_price_ignores_non_digits :
  forall (a b : text) (c : N),
    is_digit c = false ->
    parse_price (VText (a ++ c :: b)) = parse_price (VText (a ++ b)).
Proof.
  intros a b c Hc. rewrite !parse_price_text, !filter_app.
  cbn [filter]. now rewrite Hc.
Qed.

(** X7. Decimal digits of every script are read by their value: writing
    each digit of a price field with the ASCII digit of the same value
    gives the same parsed price. *)
Theorem parse_price_reads_digits_of_any_script :
  forall s : text,
    parse_price (VText (map ascii_digit s)) = parse_price (VText s).
Proof.
  intros s. rewrite !parse_price_text.
  assert (Hf : filter is_digit (map ascii_digit s)
               = map ascii_digit (filter is_digit s)).
  { induction s as [|c s IH]; [reflexivity|].
    cbn [map filter]. unfold is_digit at 1.
    rewrite digit_value_ascii_digit. fold (is_digit c).
    destruct (is_digit c); cbn [map]; now rewrite IH. }
  rewrite Hf.
  assert (Hn : nonempty (map ascii_digit (filter is_digit s))
               = nonempty (filter is_digit s))
    by (now destruct (filter is_digit s)).
  rewrite Hn. destruct (nonempty (filter is_digit s)); [|reflexivity].
  unfold int_of_digit_text. rewrite length_map.
  destruct (length (filter is_digit s) <=? int_max_str_digits)%nat;
    [|reflexivity].
  f_equal. unfold int_of_digits. clear Hf Hn. generalize 0%Z.
  induction (filter is_digit s) as [|c t IH]; intros acc; [reflexivity|].
  cbn [map fold_left]. rewrite digit_value_ascii_digit. apply IH.
Qed.

(* ================================================================ *)
(** ** Placeholders, parameters and the meaning of the WHERE list *)
(* ================================================================ *)

Lemma total_app a b : total (a ++ b) = (total a + total b)%nat.
Proof. induction a as [|n a IH]; cbn [app total]; lia. Qed.

Lemma eval_where_app w1 p1 w2 p2 r :
  total (map arity w1) = length p1 ->
  eval_where (w1 ++ w2) (p1 ++ p2) r
  = eval_where w1 p1 r && eval_where w2 p2 r.
Proof.
  revert p1. induction w1 as [|c w1 IH]; intros p1 H.
  - destruct p1; [reflexivity | discriminate].
  - cbn [map total] in H. cbn [app eval_where].
    assert (Hle : (arity c <= length p1)%nat) by lia.
    rewrite firstn_app, skipn_app.
    replace (arity c - length p1)%nat with 0%nat by lia.
    cbn [firstn skipn]. rewrite app_nil_r.
    rewrite IH by (rewrite length_skipn; lia).
    now rewrite andb_assoc.
Qed.

Lemma balanced_app a b : balanced a -> balanced b -> balanced (emit_app a b).
Proof.
  unfold balanced, emit_app. cbn [fst snd]. intros Ha Hb.
  rewrite map_app, total_app, length_app. lia.
Qed.

Lemma balanced_all l : Forall balanced l -> balanced (emit_all l).
Proof.
  induction 1 as [|e l He _ IH]; [reflexivity|].
  cbn [emit_all fold_right]. now apply balanced_app.
Qed.

Lemma holds_app a b r :
  balanced a -> holds (emit_app a b) r = holds a r && holds b r.
Proof. intros Ha. unfold holds, emit_app. cbn [fst snd]. now apply eval_where_app. Qed.

Lemma holds_all l r :
  Forall balanced l ->
  holds (emit_all l) r = forallb (fun e => holds e r) l.
Proof.
  induction 1 as [|e l He _ IH]; [reflexivity|].
  cbn [emit_all fold_right forallb]. fold (emit_all l).
  now rewrite holds_app, IH.
Qed.

Lemma balanced_include_clause col t : balanced (include_clause col t).
Proof.
  unfold include_clause, balanced.
  destruct (nonempty (normalize_persian t)); [|reflexivity].
  cbn [fst snd map total arity].
  rewrite repeat_length, length_map. apply Nat.add_0_r.
Qed.

Lemma balanced_exclude_clause col t : balanced (exclude_clause col t).
Proof.
  unfold exclude_clause, balanced.
  destruct (nonempty (normalize_persian t)); reflexivity.
Qed.

Lemma balanced_map (f : text -> emitted) l :
  (forall t, balanced (f t)) -> Forall balanced (map f l).
Proof. intros H. apply Forall_forall. intros e He.
  apply in_map_iff in He. destruct He as (t & <- & _). apply H. Qed.

Lemma balanced_apply_text_filter col tf : balanced (apply_text_filter col tf).
Proof.
  unfold apply_text_filter.
  apply balanced_app; apply balanced_all, balanced_map; intros t.
  - apply balanced_include_clause.
  - apply balanced_exclude_clause.
Qed.

Lemma balanced_category_clauses intent : balanced (category_clauses intent).
Proof.
  unfold category_clauses, balanced.
  destruct (category_given (category_code intent)); [|reflexivity].
  destruct (widened_cats intent) as [|c [|c' cats]]; cbn; lia.
Qed.

Lemma balanced_groupfamily_clauses gf : balanced (groupfamily_clauses gf).
Proof.
  unfold groupfamily_clauses.
  apply balanced_app; [|apply balanced_app].
  - apply balanced_all, balanced_map. intros t.
    destruct (nonempty (normalize_persian t)); reflexivity.
  - destruct (nonempty _); [|reflexivity]. unfold balanced.
    cbn [fst snd map total arity]. rewrite repeat_length, length_map.
    apply Nat.add_0_r.
  - apply balanced_all, balanced_map. intros t. apply balanced_exclude_clause.
Qed.

Lemma balanced_free_text_clauses intent : balanced (free_text_clauses intent).
Proof.
  unfold free_text_clauses. destruct (_ && _); reflexivity.
Qed.

Lemma build_where_pieces intent :
  build_where intent = emit_all (where_pieces intent).
Proof. reflexivity. Qed.

Lemma balanced_where_pieces intent : Forall balanced (where_pieces intent).
Proof.
  unfold where_pieces. repeat constructor.
  - unfold balanced, uploaded_clauses. now destruct (uploaded_only intent).
  - apply balanced_category_clauses.
  - apply balanced_apply_text_filter.
  - apply balanced_apply_text_filter.
  - apply balanced_apply_text_filter.
  - apply balanced_apply_text_filter.
  - apply balanced_apply_text_filter.
  - apply balanced_groupfamily_clauses.
  - apply balanced_free_text_clauses.
Qed.

Lemma balanced_fallback intent :
  balanced (st_where (fst (fallback_sql intent)), snd (fallback_sql intent)).
Proof.
  unfold fallback_sql, balanced. cbn [fst snd st_where].
  rewrite map_app, total_app.
  assert (H0 : total (map arity (uploaded_clauses intent)) = 0%nat)
    by (unfold uploaded_clauses; now destruct (uploaded_only intent)).
  rewrite H0. destruct (nonempty _); cbn; lia.
Qed.

Lemma placeholders_app a b :
  placeholders (a ++ b) = (placeholders a + placeholders b)%nat.
Proof. unfold placeholders. now rewrite filter_app, length_app. Qed.

Lemma placeholders_spaces n : placeholders (repeat 0x20 n) = 0%nat.
Proof. induction n as [|n IH]; [reflexivity | exact IH]. Qed.

Lemma placeholders_sql_line indent body :
  placeholders (sql_line indent body) = placeholders body.
Proof.
  unfold sql_line. rewrite !placeholders_app, placeholders_spaces.
  reflexivity.
Qed.

Lemma placeholders_join sep parts :
  placeholders sep = 0%nat ->
  placeholders (join sep parts) = total (map placeholders parts).
Proof.
  intros Hsep. induction parts as [|p rest IH]; [reflexivity|].
  cbn [join map total]. destruct rest as [|q rest].
  - cbn. lia.
  - rewrite !placeholders_app, Hsep, IH. reflexivity.
Qed.

Lemma placeholders_column c : placeholders (quoted (column_name c)) = 0%nat.
Proof. destruct c; reflexivity. Qed.

(** The text of an entry has as many [?] as the entry has placeholders. *)
Lemma placeholders_render_cond c : placeholders (render_cond c) = arity c.
Proof.
  destruct c as [c|c|c|c n|c|cs|c]; cbn [render_cond arity];
    rewrite ?placeholders_app, ?placeholders_column; try reflexivity.
  - rewrite placeholders_join by reflexivity.
    change (placeholders (txt " IN (")) with 0%nat.
    change (placeholders (txt ")")) with 0%nat.
    induction n as [|n IH]; [reflexivity|].
    cbn [repeat map total] in *.
    change (placeholders (txt "?")) with 1%nat. lia.
  - rewrite placeholders_join by reflexivity.
    change (placeholders (txt "(")) with 0%nat.
    change (placeholders (txt ")")) with 0%nat.
    induction cs as [|c cs IH]; [reflexivity|].
    cbn [map total length] in *.
    rewrite placeholders_app, placeholders_column.
    change (placeholders (txt " LIKE ?")) with 1%nat. lia.
Qed.

Lemma placeholders_render_statement indent st :
  placeholders (render_statement indent st)
  = (total (map arity (st_where st))
     + placeholders (text_of_nat (st_limit st)))%nat.
Proof.
  unfold render_statement, select_line. cbv zeta.
  rewrite !placeholders_app, !placeholders_sql_line, !placeholders_app.
  rewrite !placeholders_column, !placeholders_spaces.
  assert (Hw : placeholders
                 (if nonempty (st_where st)
                  then join (txt " AND ") (map render_cond (st_where st))
                  else txt "1=1")
               = total (map arity (st_where st))).
  { destruct (st_where st) as [|c w]; [reflexivity|].
    cbn [nonempty]. rewrite placeholders_join by reflexivity.
    rewrite map_map. f_equal. apply map_ext. apply placeholders_render_cond. }
  rewrite Hw.
  repeat match goal with
         | |- context [placeholders ?t] =>
             lazymatch t with
             | context [st] => fail
             | _ => let v := eval vm_compute in (placeholders t) in
                    change (placeholders t) with v
             end
         end.
  lia.
Qed.

(** X8. The SQL text of [build_sql] holds exactly as many [?]
    placeholders as there are bound parameters, for every intent; the
    same is true of the fallback statement. *)
Theorem sql_placeholders_match_params :
  forall intent : SearchIntent,
    placeholders (render_statement 8 (fst (build_sql intent)))
    = length (snd (build_sql intent))
    /\ placeholders (render_statement 16 (fst (fallback_sql intent)))
       = length (snd (fallback_sql intent)).
Proof.
  intros intent. split; rewrite placeholders_render_statement.
  - unfold build_sql. cbn [fst snd st_where st_limit].
    change (placeholders (text_of_nat 1200)) with 0%nat.
    rewrite build_where_pieces, Nat.add_0_r.
    apply (balanced_all _ (balanced_where_pieces intent)).
  - pose proof (balanced_fallback intent) as H. unfold balanced in H.
    cbn [fst snd] in H. rewrite H.
    unfold fallback_sql. cbn [fst st_limit].
    change (placeholders (text_of_nat 2500)) with 0%nat. lia.
Qed.

(* ================================================================ *)
(** ** What the rows of the primary fetch satisfy *)
(* ================================================================ *)

(** A row of the primary fetch passes every run of entries of the WHERE
    list, each with its own parameters. *)
Lemma primary_row_holds db intent0 r piece :
  In r (primary_rows db intent0) ->
  In piece (where_pieces (normalized_intent intent0)) ->
  holds piece r = true.
Proof.
  unfold primary_rows. cbv zeta. intros Hr Hp.
  apply run_statement_In in Hr. destruct Hr as [_ Hr].
  unfold build_sql in Hr. cbn [fst snd st_where] in Hr.
  rewrite build_where_pieces in Hr.
  change (holds (emit_all (where_pieces (normalized_intent intent0))) r
          = true) in Hr.
  rewrite holds_all in Hr by apply balanced_where_pieces.
  rewrite forallb_forall in Hr. now apply Hr.
Qed.

Lemma text_filter_piece intent col tf :
  In (col, tf) (text_filters intent) ->
  In (apply_text_filter col tf) (where_pieces intent).
Proof.
  unfold text_filters, where_pieces. cbv zeta. cbn [In].
  intros [H | [H | [H | [H | [H | []]]]]]; injection H as <- <-; tauto.
Qed.

Lemma holds_text_filter col tf r :
  holds (apply_text_filter col tf) r = true ->
  (forall t, In t (include tf) -> holds (include_clause col t) r = true)
  /\ (forall t, In t (exclude tf) -> holds (exclude_clause col t) r = true).
Proof.
  unfold apply_text_filter. intros H.
  rewrite holds_app in H
    by (apply balanced_all, balanced_map, balanced_include_clause).
  apply andb_prop in H. destruct H as [Hi He].
  rewrite holds_all in Hi by (apply balanced_map, balanced_include_clause).
  rewrite holds_all in He by (apply balanced_map, balanced_exclude_clause).
  rewrite forallb_forall in Hi, He.
  split; intros t Ht; [apply Hi | apply He]; now apply in_map.
Qed.

Lemma in_combine_repeat {A B} (x : A) n (l : list B) a b :
  In (a, b) (combine (repeat x n) l) -> a = x /\ In b l.
Proof.
  intros H. split.
  - apply in_combine_l in H. now apply repeat_spec in H.
  - now apply in_combine_r in H.
Qed.

(** An OR group over one column holds when the field matches one of the
    patterns. *)
Lemma holds_any_like col (terms : list text) (pat : text -> text) r :
  holds ([AnyLike (repeat col (length terms))], map pat terms) r = true ->
  exists term s,
    In term terms /\ field r col = Some s /\ sql_like (pat term) s = true.
Proof.
  unfold holds. cbn [fst snd eval_where eval_cond arity].
  rewrite andb_true_r, repeat_length.
  rewrite firstn_all2 by (rewrite length_map; apply Nat.le_refl).
  intros H. apply existsb_exists in H. destruct H as ([c p] & Hin & H).
  apply in_combine_repeat in Hin. destruct Hin as [-> Hp].
  apply in_map_iff in Hp. destruct Hp as (term & <- & Hterm).
  cbn [fst snd] in H. destruct (field r col) as [s|]; [|discriminate].
  now exists term, s.
Qed.

Lemma holds_include_clause col t r :
  normalize_persian t <> [] ->
  holds (include_clause col t) r = true ->
  exists term s,
    In term (include_terms col t)
    /\ field r col = Some s
    /\ sql_like (like_pattern (normalize_persian term)) s = true.
Proof.
  intros Hne. apply nonempty_true in Hne.
  unfold include_clause, include_terms. rewrite Hne.
  apply (holds_any_like col _
           (fun term => like_pattern (normalize_persian term))).
Qed.

Lemma holds_exclude_clause col t r :
  normalize_persian t <> [] ->
  holds (exclude_clause col t) r = true ->
  match field r col with
  | None => True
  | Some s => sql_like (like_pattern (normalize_persian t)) s = false
  end.
Proof.
  intros Hne. apply nonempty_true in Hne.
  unfold exclude_clause, holds. rewrite Hne.
  cbn [fst snd eval_where eval_cond arity firstn].
  destruct (field r col) as [s|]; [|trivial].
  rewrite andb_true_r. now intros H%negb_true_iff.
Qed.

(** X9. Include terms are conjunctive.  Every row of the primary fetch
    satisfies every non-blank include term of every text filter: its
    field is not NULL and matches, as a LIKE substring, the normalized
    term or, for the publisher column with an alias map loaded, one term
    of its alias group. *)
Theorem include_terms_are_all_required :
  forall (db : list Row) (intent : SearchIntent) (r : Row)
         (col : column) (tf : TextFilter) (t : text),
    In r (primary_rows db intent) ->
    In (col, tf) (text_filters intent) ->
    In t (include tf) ->
    normalize_persian t <> [] ->
    exists term s,
      In term (include_terms col t)
      /\ field r col = Some s
      /\ sql_like (like_pattern (normalize_persian term)) s = true.
Proof.
  intros db intent r col tf t Hr Hf Ht Hne.
  apply holds_include_clause; [exact Hne|].
  assert (Hp : holds (apply_text_filter col tf) r = true).
  { apply primary_row_holds with (db := db) (intent0 := intent);
      [exact Hr|].
    apply text_filter_piece. exact Hf. }
  apply holds_text_filter in Hp. now apply Hp.
Qed.

(** X10. Exclude terms are honoured and NULL-safe.  For every row of the
    primary fetch and every non-blank exclude term of a text filter or
    of the groupfamily tags, the field is NULL or does not match the
    normalized term as a LIKE substring. *)
Theorem exclude_terms_never_match :
  forall (db : list Row) (intent : SearchIntent) (r : Row)
         (col : column) (terms : list text) (t : text),
    In r (primary_rows db intent) ->
    (exists tf, In (col, tf) (text_filters intent) /\ terms = exclude tf)
    \/ (col = COL_GROUPFAMILY
        /\ terms = gf_exclude (f_groupfamily_tags (filters intent))) ->
    In t terms ->
    normalize_persian t <> [] ->
    match field r col with
    | None => True
    | Some s => sql_like (like_pattern (normalize_persian t)) s = false
    end.
Proof.
  intros db intent r col terms t Hr Hsrc Ht Hne.
  apply holds_exclude_clause; [exact Hne|].
  destruct Hsrc as [(tf & Hf & ->) | [-> ->]].
  - assert (Hp : holds (apply_text_filter col tf) r = true).
    { apply primary_row_holds with (db := db) (intent0 := intent);
        [exact Hr|].
      apply text_filter_piece. exact Hf. }
    apply holds_text_filter in Hp. now apply Hp.
  - assert (Hp : holds (groupfamily_clauses
                          (f_groupfamily_tags (filters intent))) r = true).
    { apply primary_row_holds with (db := db) (intent0 := intent);
        [exact Hr|].
      unfold where_pieces. cbv zeta. cbn [In]. tauto. }
    unfold groupfamily_clauses in Hp. cbv zeta in Hp.
    rewrite holds_app in Hp.
    2:{ apply balanced_all, balanced_map. intros u.
        destruct (nonempty (normalize_persian u)); reflexivity. }
    apply andb_prop in Hp. destruct Hp as [_ Hp].
    rewrite holds_app in Hp.
    2:{ destruct (nonempty _); [|reflexivity]. unfold balanced.
        cbn [fst snd map total arity]. rewrite repeat_length, length_map.
        apply Nat.add_0_r. }
    apply andb_prop in Hp. destruct Hp as [_ Hp].
    rewrite holds_all in Hp by (apply balanced_map, balanced_exclude_clause).
    rewrite forallb_forall in Hp. apply Hp. now apply in_map.
Qed.

Lemma text_eqb_eq a b : text_eqb a b = true -> a = b.
Proof.
  revert b. induction a as [|x a IH]; intros [|y b] H;
    try reflexivity; try discriminate.
  cbn [text_eqb] in H. apply andb_prop in H. destruct H as [Hx Ha].
  apply N.eqb_eq in Hx. subst y. f_equal. now apply IH.
Qed.

Lemma existsb_text_In c l : existsb (text_eqb c) l = true -> In c l.
Proof.
  intros H. apply existsb_exists in H. destruct H as (x & Hx & E).
  apply text_eqb_eq in E. now subst x.
Qed.

(** X11. Groupfamily tag filters.  Every row of the primary fetch has a
    groupfamily field that matches every non-blank [include_all] tag and,
    when [include_any] has a non-blank tag, at least one of those. *)
Theorem groupfamily_tags_are_honoured :
  forall (db : list Row) (intent : SearchIntent) (r : Row),
    In r (primary_rows db intent) ->
    let gf := f_groupfamily_tags (filters intent) in
    let any_terms :=
      filter (fun t => nonempty t) (map normalize_persian (include_any gf)) in
    (forall t, In t (include_all gf) -> normalize_persian t <> [] ->
               exists s, r_groupfamily r = Some s
                         /\ sql_like (like_pattern (normalize_persian t)) s
                            = true)
    /\ (any_terms <> [] ->
        exists t s, In t any_terms
                    /\ r_groupfamily r = Some s
                    /\ sql_like (like_pattern t) s = true).
Proof.
  intros db intent r Hr gf any_terms.
  assert (Hp : holds (groupfamily_clauses gf) r = true).
  { apply primary_row_holds with (db := db) (intent0 := intent);
      [exact Hr|].
    unfold where_pieces. cbv zeta. cbn [In]. tauto. }
  unfold groupfamily_clauses in Hp. cbv zeta in Hp. fold any_terms in Hp.
  rewrite holds_app in Hp.
  2:{ apply balanced_all, balanced_map. intros u.
      destruct (nonempty (normalize_persian u)); reflexivity. }
  apply andb_prop in Hp. destruct Hp as [Hall Hp].
  rewrite holds_app in Hp.
  2:{ destruct (nonempty _); [|reflexivity]. unfold balanced.
      cbn [fst snd map total arity]. rewrite repeat_length, length_map.
      apply Nat.add_0_r. }
  apply andb_prop in Hp. destruct Hp as [Hany _].
  split.
  - intros t Ht Hne.
    rewrite holds_all in Hall.
    2:{ apply Forall_forall. intros e He. apply in_map_iff in He.
        destruct He as (u & <- & _).
        destruct (nonempty (normalize_persian u)); reflexivity. }
    rewrite forallb_forall in Hall.
    specialize (Hall _ (in_map _ _ _ Ht)). cbv beta zeta in Hall.
    apply nonempty_true in Hne. rewrite Hne in Hall.
    unfold holds in Hall.
    cbn [fst snd eval_where eval_cond arity firstn field] in Hall.
    destruct (r_groupfamily r) as [s|]; [|discriminate].
    exists s. split; [reflexivity|]. now rewrite andb_true_r in Hall.
  - intros Hne. apply nonempty_true in Hne. rewrite Hne in Hany.
    apply (holds_any_like COL_GROUPFAMILY any_terms like_pattern) in Hany.
    destruct Hany as (t & s & Ht & Hs & Hm). now exists t, s.
Qed.

Lemma listed_in_widened intent c :
  In c (listed_cats (category_code intent)) -> In c (widened_cats intent).
Proof.
  unfold widened_cats.
  destruct (texts_eqb (listed_cats (category_code intent)) [txt "s"]) eqn:E;
    cbn [andb]; [|trivial].
  destruct (existsb _ pen_keywords); [|trivial].
  destruct (listed_cats (category_code intent)) as [|x [|y l]];
    cbn [texts_eqb] in E; rewrite ?andb_false_r in E; try discriminate.
  rewrite andb_true_r in E. apply text_eqb_eq in E.
  subst x. intros [<- | []]. now left.
Qed.

(** X12. The category filter is honoured on both paths.  When the
    intent gives a category that resolves to at least one code, every row
    that enters the result pipeline, from the primary fetch or from the
    fuzzy fallback, has a stored category code among the resolved codes
    (with the luxury-pen code when the primary statement was widened). *)
Theorem category_is_honoured_on_both_paths :
  forall (db : list Row) (intent : SearchIntent) (r : Row),
    category_given (category_code intent) = true ->
    listed_cats (category_code intent) <> [] ->
    In r (fetched_rows db intent) ->
    exists c, r_category_code r = Some c
              /\ In c (widened_cats (normalized_intent intent)).
Proof.
  intros db intent r Hgiven Hne Hr.
  apply fetched_rows_In in Hr. destruct Hr as [_ [Hw | Hw]].
  - unfold build_sql in Hw. cbn [fst snd st_where] in Hw.
    rewrite build_where_pieces in Hw.
    change (holds (emit_all (where_pieces (normalized_intent intent))) r
            = true) in Hw.
    rewrite holds_all in Hw by apply balanced_where_pieces.
    rewrite forallb_forall in Hw.
    assert (Hc : holds (category_clauses (normalized_intent intent)) r
                 = true).
    { apply Hw. unfold where_pieces. cbv zeta. cbn [In]. tauto. }
    unfold category_clauses in Hc.
    change (category_code (normalized_intent intent))
      with (category_code intent) in Hc.
    rewrite Hgiven in Hc. unfold holds in Hc.
    destruct (widened_cats (normalized_intent intent)) as [|c [|c' cats]];
      cbn [fst snd eval_where eval_cond arity firstn field] in Hc.
    + destruct (r_category_code r); discriminate.
    + destruct (r_category_code r) as [s|]; [|discriminate].
      rewrite andb_true_r in Hc. apply text_eqb_eq in Hc. subst s.
      exists c. split; [reflexivity | now left].
    + destruct (r_category_code r) as [s|]; [|discriminate].
      rewrite andb_true_r in Hc. exists s. split; [reflexivity|].
      apply existsb_text_In in Hc. now apply firstn_In in Hc.
  - unfold fallback_sql in Hw. cbn [fst snd st_where] in Hw.
    change (category_code (normalized_intent intent))
      with (category_code intent) in Hw.
    rewrite Hgiven in Hw.
    apply nonempty_true in Hne. rewrite Hne in Hw. cbn [fst snd] in Hw.
    rewrite <- (app_nil_l (listed_cats (category_code intent))) in Hw at 2.
    rewrite eval_where_app in Hw
      by (unfold uploaded_clauses;
          now destruct (uploaded_only (normalized_intent intent))).
    apply andb_prop in Hw. destruct Hw as [_ Hw].
    cbn [eval_where eval_cond arity field] in Hw.
    rewrite firstn_all, andb_true_r in Hw.
    destruct (r_category_code r) as [s|]; [|discriminate].
    exists s. split; [reflexivity|].
    apply listed_in_widened. now apply existsb_text_In.
Qed.

(** X13. Free-text search.  When the intent has no structured filter at
    all and its normalized query text is not empty, every row of the
    primary fetch has the normalized query as a LIKE substring in at
    least one of the six searched fields. *)
Theorem free_text_rows_contain_the_query :
  forall (db : list Row) (intent : SearchIntent) (r : Row),
    user_filters_present intent = false ->
    normalize_query (query_text intent) <> [] ->
    In r (primary_rows db intent) ->
    exists col s,
      In col or_cols
      /\ field r col = Some s
      /\ sql_like (like_pattern (normalize_query (query_text intent))) s
         = true.
Proof.
  intros db intent r Hnone Hq Hr.
  assert (Hp : holds (free_text_clauses (normalized_intent intent)) r = true).
  { apply primary_row_holds with (db := db) (intent0 := intent);
      [exact Hr|].
    unfold where_pieces. cbv zeta. cbn [In]. tauto. }
  unfold free_text_clauses in Hp.
  change (user_filters_present (normalized_intent intent))
    with (user_filters_present intent) in Hp.
  change (query_text (normalized_intent intent))
    with (normalize_query (query_text intent)) in Hp.
  rewrite normalize_query_steps_fixed in Hp;
    [| apply normalize_query_stripped
     | apply normalize_query_no_question_mark
     | apply normalize_query_stripped
     | apply normalize_query_normal].
  apply nonempty_true in Hq. rewrite Hq, Hnone in Hp. cbn [andb negb] in Hp.
  unfold holds in Hp. cbn [fst snd eval_where eval_cond arity] in Hp.
  rewrite andb_true_r in Hp. apply existsb_exists in Hp.
  destruct Hp as ([c p] & Hin & H). cbn [fst snd] in H.
  destruct (field r c) as [s|] eqn:Ef; [|discriminate].
  exists c, s. split; [|split; [exact Ef|]].
  - now apply in_combine_l in Hin.
  - apply in_combine_r, firstn_In in Hin.
    apply in_map_iff in Hin. destruct Hin as (? & <- & _). exact H.
Qed.

(** X14. An empty category switches the free-text search off.  When
    [category_code] is given but empty (the empty string or the empty
    list), no category entry is compiled, yet the intent counts as
    having a structured filter: the query text has no influence on the
    statement and parameters of [build_sql]. *)
Theorem empty_category_disables_free_text :
  forall (intent : SearchIntent) (q : text),
    category_code intent <> CatNone ->
    category_given (category_code intent) = false ->
    build_sql (set_query_text intent q) = build_sql intent
    /\ free_text_clauses intent = ([], [])
    /\ category_clauses intent = ([], []).
Proof.
  intros intent q Hsome Hempty.
  assert (Hu : forall i, category_code i = category_code intent ->
                         free_text_clauses i = ([], [])).
  { intros i Hi. unfold free_text_clauses, user_filters_present.
    rewrite Hi. destruct (category_code intent); [now elim Hsome| |];
      cbn [orb negb]; now rewrite andb_false_r. }
  assert (Hc : forall i, category_code i = category_code intent ->
                         category_clauses i = ([], [])).
  { intros i Hi. unfold category_clauses. now rewrite Hi, Hempty. }
  split; [|split; [now apply Hu | now apply Hc]].
  unfold build_sql, build_where.
  rewrite (Hu (set_query_text intent q) eq_refl), (Hu intent eq_refl).
  rewrite (Hc (set_query_text intent q) eq_refl), (Hc intent eq_refl).
  reflexivity.
Qed.

Lemma expand_in_keeps_term aliases u :
  expand_in aliases (norm_lower u) u <> []
  /\ existsb (text_eqb (norm_lower u))
             (map norm_lower (expand_in aliases (norm_lower u) u)) = true.
Proof.
  induction aliases as [|[k A] aliases IH]; cbn [expand_in].
  - split; [discriminate|]. cbn [map existsb].
    now rewrite text_eqb_refl.
  - destruct (existsb (text_eqb (norm_lower u)) (map norm_lower (k :: A)))
      eqn:E; [|exact IH].
    split; [discriminate | exact E].
Qed.

(** X15. Alias expansion never loses the user's term: the expansion is
    never empty (so no OR group is empty) and always holds a term equal
    to the user's term after normalization and lower-casing. *)
Theorem expansion_keeps_the_user_term :
  forall t : text,
    expand_brand_terms t <> []
    /\ existsb (text_eqb (norm_lower t))
               (map norm_lower (expand_brand_terms t)) = true
    /\ forall col, include_terms col t <> [].
Proof.
  intros t. unfold expand_brand_terms.
  destruct (expand_in_keeps_term BRAND_ALIASES t) as [Hne Hin].
  split; [exact Hne|]. split; [exact Hin|].
  intros col. unfold include_terms.
  destruct (column_eqb col COL_PUBLISHER && nonempty BRAND_ALIASES);
    [|discriminate].
  unfold expand_brand_terms.
  apply (expand_in_keeps_term BRAND_ALIASES (normalize_persian t)).
Qed.

(* ================================================================ *)
(** ** The response: price bounds, facets, orders and sizes *)
(* ================================================================ *)

Lemma search_results_items db intent0 res :
  In res (resp_results (fst (search_on db intent0))) ->
  exists d, In d (post_filter_items db intent0) /\ res = result_of d.
Proof.
  unfold post_filter_items, fetched_rows, search_on.
  fold (normalized_intent intent0).
  destruct (fetch_rows db (normalized_intent intent0) []) as [rows log].
  cbn [fst resp_results]. intros H.
  apply in_map_iff in H. destruct H as (it & <- & H).
  apply firstn_In in H.
  apply (Permutation_in _ (rank_perm _ _)) in H.
  now exists it.
Qed.

(** X16. Price bounds are honoured in the response.  When a price bound
    is set, every entry of the results list has a parsed price and it
    lies within the bounds that are set, whichever fetch the row came
    from. *)
Theorem results_respect_the_price_bounds :
  forall (db : list Row) (intent : SearchIntent),
    let lo := price_min (f_price (filters intent)) in
    let hi := price_max (f_price (filters intent)) in
    Forall (fun res =>
              (lo = None /\ hi = None)
              \/ exists v, res_price res = Some v
                           /\ within_bounds lo hi v = true)
           (resp_results (fst (search_on db intent))).
Proof.
  intros db intent lo hi. apply Forall_forall. intros res Hres.
  apply search_results_items in Hres. destruct Hres as (d & Hd & ->).
  unfold post_filter_items in Hd. rewrite collect_items_rows in Hd.
  apply in_map_iff in Hd. destruct Hd as (r & <- & Hr).
  apply filter_In in Hr. destruct Hr as [_ Hpass].
  rewrite passes_price_filter_spec in Hpass.
  change (filters (normalized_intent intent)) with (filters intent) in Hpass.
  fold lo hi in Hpass. cbn [result_of res_price set_score d_price_value].
  cbn [display d_price d_price_value] in *.
  destruct lo as [l|], hi as [h|]; try (left; split; reflexivity); right;
    destruct (parse_price (r_price r)) as [v|]; try discriminate;
    exists v; split; auto.
Qed.

Lemma text_eqb_neq a b : text_eqb a b = false -> a <> b.
Proof. intros H ->. now rewrite text_eqb_refl in H. Qed.

Lemma count_for_bump cc cc' counts :
  count_for cc (bump cc' counts)
  = if text_eqb cc' cc then S (count_for cc counts) else count_for cc counts.
Proof.
  induction counts as [|[k n] rest IH]; cbn [bump count_for].
  - destruct (text_eqb cc' cc); reflexivity.
  - destruct (text_eqb k cc') eqn:E1; cbn [count_for].
    + apply text_eqb_eq in E1. subst k.
      destruct (text_eqb cc' cc); reflexivity.
    + rewrite IH. destruct (text_eqb k cc) eqn:E2; [|reflexivity].
      apply text_eqb_eq in E2. subst k.
      destruct (text_eqb cc' cc) eqn:E3; [|reflexivity].
      apply text_eqb_eq in E3. subst cc'. now rewrite text_eqb_refl in E1.
Qed.

Lemma total_bump cc counts :
  total (map snd (bump cc counts)) = S (total (map snd counts)).
Proof.
  induction counts as [|[k n] rest IH]; [reflexivity|].
  cbn [bump]. destruct (text_eqb k cc); cbn [map snd total] in *; lia.
Qed.

Lemma keys_bump cc counts k :
  In k (map fst (bump cc counts)) -> k = cc \/ In k (map fst counts).
Proof.
  induction counts as [|[k' n] rest IH]; cbn [bump map fst In].
  - intros [<- | []]. now left.
  - destruct (text_eqb k' cc); cbn [map fst In]; intros [H | H]; auto.
    destruct (IH H); auto.
Qed.

Lemma NoDup_bump cc counts :
  NoDup (map fst counts) -> NoDup (map fst (bump cc counts)).
Proof.
  induction counts as [|[k n] rest IH]; cbn [bump map fst]; intros H.
  - repeat constructor. intros [].
  - inversion H as [|? ? Hk Hrest]; subst.
    destruct (text_eqb k cc) eqn:E; cbn [map fst].
    + now constructor.
    + constructor; [|now apply IH].
      intros Hin. apply keys_bump in Hin. destruct Hin as [-> | Hin].
      * now rewrite text_eqb_refl in E.
      * contradiction.
Qed.

Lemma count_categories_from acc items :
  NoDup (map fst acc) ->
  let dist :=
    fold_left (fun counts d => bump (d_category_code d) counts) items acc in
  NoDup (map fst dist)
  /\ total (map snd dist) = (total (map snd acc) + length items)%nat
  /\ forall cc,
       count_for cc dist
       = (count_for cc acc
          + length (filter (fun d => text_eqb (d_category_code d) cc) items))%nat.
Proof.
  revert acc. induction items as [|d items IH]; intros acc Hacc; cbn zeta.
  - cbn [fold_left length filter]. repeat split; auto; intros; lia.
  - cbn [fold_left].
    destruct (IH (bump (d_category_code d) acc) (NoDup_bump _ _ Hacc))
      as (H1 & H2 & H3).
    split; [exact H1|]. split.
    + rewrite H2, total_bump. cbn [length]. lia.
    + intros cc. rewrite H3, count_for_bump. cbn [filter].
      destruct (text_eqb (d_category_code d) cc); cbn [length]; lia.
Qed.

(** X17. The category distribution is a tally of the set left by the
    price filter, before sorting and truncation: its keys are distinct,
    the count of a code is the number of items with that code, the
    counts add up to the size of that set, and so to at least [count]. *)
Theorem category_distribution_tallies_the_filtered_set :
  forall (db : list Row) (intent : SearchIntent),
    let resp := fst (search_on db intent) in
    let dist := resp_category_distribution resp in
    let items := post_filter_items db intent in
    NoDup (map fst dist)
    /\ (forall cc : text,
           count_for cc dist
           = length (filter (fun d => text_eqb (d_category_code d) cc) items))
    /\ total (map snd dist) = length items
    /\ (resp_count resp <= total (map snd dist))%nat.
Proof.
  intros db intent resp dist items. subst resp dist items.
  unfold post_filter_items, fetched_rows, search_on.
  fold (normalized_intent intent).
  destruct (fetch_rows db (normalized_intent intent) []) as [rows log].
  cbn [fst resp_category_distribution resp_count].
  destruct (count_categories_from []
              (collect_items (normalized_intent intent) rows)
              (NoDup_nil _)) as (H1 & H2 & H3).
  cbv zeta in H1, H2, H3. fold (count_categories
    (collect_items (normalized_intent intent) rows)) in H1, H2, H3.
  split; [exact H1|]. split; [intros cc; now rewrite H3|].
  split; [exact H2|].
  rewrite H2, length_firstn, (Permutation_length (rank_perm _ _)).
  cbn [map snd total]. lia.
Qed.

(* ---------------------------------------------------------------- *)
(** *** Stability and order of the three rankings *)

Lemma insert_by_filter {A} (lt : A -> A -> bool) (sel : A -> bool) x l :
  (forall y, lt y x = true -> sel x = true -> sel y = false) ->
  filter sel (insert_by lt x l) = filter sel (x :: l).
Proof.
  intros H. induction l as [|y l IH]; [reflexivity|].
  cbn [insert_by]. destruct (lt y x) eqn:E; [|reflexivity].
  cbn [filter] in *. rewrite IH.
  destruct (sel x) eqn:Ex; [|reflexivity].
  now rewrite (H y E eq_refl).
Qed.

Lemma stable_sort_filter {A} (lt : A -> A -> bool) (sel : A -> bool) l :
  (forall x y, lt y x = true -> sel x = true -> sel y = false) ->
  filter sel (stable_sort lt l) = filter sel l.
Proof.
  intros H. induction l as [|x l IH]; [reflexivity|].
  cbn [stable_sort fold_right]. fold (stable_sort lt l).
  rewrite insert_by_filter by (intros y; apply H).
  cbn [filter]. now rewrite IH.
Qed.

(** Elements with the same key keep their order, in both directions. *)
Lemma list_sort_stable {A K} (lt : K -> K -> bool) (key : A -> K)
  (sel : A -> bool) rv l :
  (forall x y, lt (key y) (key x) = true -> sel x = true -> sel y = false) ->
  filter sel (list_sort lt key rv l) = filter sel l.
Proof.
  intros H. unfold list_sort. destruct rv.
  - rewrite filter_rev, stable_sort_filter by exact H.
    now rewrite <- filter_rev, rev_involutive.
  - now apply stable_sort_filter.
Qed.

(** X18. Relevance ranking is by descending score, whatever the
    requested direction, and it is stable: items with the same score
    keep the order in which they were retrieved. *)
Theorem relevance_order_is_descending_and_stable :
  forall (dir : Direction) (items : list Item),
    let ranked :=
      rank {| sort_by := by_relevance; direction := dir |} items in
    StronglySorted (fun a b => (d_score b <= d_score a)%Z) ranked
    /\ (forall z : Z,
           filter (fun d => (d_score d =? z)%Z) ranked
           = filter (fun d => (d_score d =? z)%Z) items)
    /\ Permutation ranked items.
Proof.
  intros dir items ranked. subst ranked. unfold rank. cbn [sort_by].
  split; [|split].
  - apply StronglySorted_weaken
      with (R := fun a b => Z.ltb (d_score a) (d_score b) = false).
    + intros a b H. apply Z.ltb_ge in H. exact H.
    + apply (list_sort_descending Z.ltb d_score (fun _ => True)).
      * intros a b H. apply Z.ltb_lt in H. apply Z.ltb_ge. lia.
      * intros a b c _ _ _ H1 H2. apply Z.ltb_ge in H1, H2.
        apply Z.ltb_ge. lia.
      * apply Forall_forall. intros; exact I.
  - intros z. apply list_sort_stable.
    intros x y Hlt Hx. apply Z.ltb_lt in Hlt. apply Z.eqb_eq in Hx.
    apply Z.eqb_neq. lia.
  - apply list_sort_perm.
Qed.

Lemma null_key_order_stable {A} (v : A -> option Z) (o : option Z) rv l :
  filter (fun d => option_Z_eqb (v d) o)
         (list_sort null_key_lt (fun x => null_last_key (v x)) rv l)
  = filter (fun d => option_Z_eqb (v d) o) l.
Proof.
  apply list_sort_stable. intros x y Hlt Hx.
  rewrite null_key_lt_values in Hlt.
  destruct (v y) as [a|], (v x) as [b|], o as [c|];
    cbn [option_Z_eqb] in *; try discriminate; try reflexivity.
  apply Z.ltb_lt in Hlt. apply Z.eqb_eq in Hx. apply Z.eqb_neq. lia.
Qed.

Lemma null_key_order_ascending {A} (v : A -> option Z) l :
  StronglySorted (fun a b => ascending_nulls_last (v a) (v b))
    (list_sort null_key_lt (fun x => null_last_key (v x)) false l).
Proof.
  unfold list_sort.
  apply StronglySorted_weaken
    with (R := fun a b =>
                 null_key_lt (null_last_key (v b)) (null_last_key (v a))
                 = false).
  - intros a b H. rewrite null_key_lt_values in H.
    unfold ascending_nulls_last.
    destruct (v a), (v b); try discriminate; try exact I.
    apply Z.ltb_ge in H. exact H.
  - apply (stable_sort_sorted
             (fun a b => null_key_lt (null_last_key (v a))
                                     (null_last_key (v b)))
             (fun _ => True)).
    + intros a b. rewrite !null_key_lt_values.
      destruct (v a), (v b); try congruence.
      intros H. apply Z.ltb_lt in H. apply Z.ltb_ge. lia.
    + intros a b c _ _ _. rewrite !null_key_lt_values.
      destruct (v a), (v b), (v c); try congruence.
      intros H1 H2. apply Z.ltb_ge in H1, H2. apply Z.ltb_ge. lia.
    + apply Forall_forall. intros; exact I.
Qed.

Lemma null_key_order_descending {A} (v : A -> option Z) l :
  StronglySorted (fun a b => descending_values (v a) (v b))
    (list_sort null_key_lt (fun x => null_last_key (v x)) true l).
Proof.
  apply StronglySorted_weaken
    with (R := fun a b =>
                 null_key_lt (null_last_key (v a)) (null_last_key (v b))
                 = false).
  - intros a b H. rewrite null_key_lt_values in H.
    unfold descending_values.
    destruct (v a), (v b); try exact I. apply Z.ltb_ge in H. exact H.
  - apply (list_sort_descending null_key_lt
             (fun x => null_last_key (v x))
             (fun k => k = null_last_key (snd k))).
    + intros [[|] [a|]] [[|] [b|]]; cbn; try congruence.
      all: intros H; apply Z.ltb_lt in H; apply Z.ltb_ge; lia.
    + intros a b c -> -> ->. rewrite !null_key_lt_values.
      destruct (snd a), (snd b), (snd c); try congruence.
      intros H1 H2. apply Z.ltb_ge in H1, H2. apply Z.ltb_ge. lia.
    + apply Forall_forall. intros x _. now destruct (v x).
Qed.

(** X19. The price and quantity orders.  Ascending, the rows come by
    increasing value with the rows without a value last; descending, the
    rows that have a value come by decreasing value; in both directions
    rows with the same value (or both without one) keep their retrieval
    order. *)
Theorem price_and_quantity_orders :
  forall items : list Item,
    let by_p dir := rank {| sort_by := by_price; direction := dir |} items in
    let by_q dir := rank {| sort_by := by_qty; direction := dir |} items in
    StronglySorted
      (fun a b => ascending_nulls_last (d_price_value a) (d_price_value b))
      (by_p asc)
    /\ StronglySorted
         (fun a b => ascending_nulls_last (d_qty_value a) (d_qty_value b))
         (by_q asc)
    /\ StronglySorted
         (fun a b => descending_values (d_price_value a) (d_price_value b))
         (by_p desc)
    /\ StronglySorted
         (fun a b => descending_values (d_qty_value a) (d_qty_value b))
         (by_q desc)
    /\ (forall dir o,
           filter (fun d => option_Z_eqb (d_price_value d) o) (by_p dir)
           = filter (fun d => option_Z_eqb (d_price_value d) o) items)
    /\ (forall dir o,
           filter (fun d => option_Z_eqb (d_qty_value d) o) (by_q dir)
           = filter (fun d => option_Z_eqb (d_qty_value d) o) items).
Proof.
  intros items by_p by_q. subst by_p by_q. unfold rank.
  cbn [sort_by direction].
  split; [apply null_key_order_ascending|].
  split; [apply null_key_order_ascending|].
  split; [apply null_key_order_descending|].
  split; [apply null_key_order_descending|].
  split; intros dir o; apply null_key_order_stable.
Qed.

Lemma run_statement_length db st ps :
  (length (run_statement db st ps) <= st_limit st)%nat.
Proof. unfold run_statement. rewrite length_firstn. lia. Qed.

(** X20. The work of a request is bounded.  The primary fetch returns at
    most 1200 rows and the fallback fetch at most 2500 candidates; at
    most 1200 rows enter the row loop on either path, so at most 1200
    items are scored and tallied; the results list has at most 50
    entries. *)
Theorem request_work_is_bounded :
  forall (db : list Row) (intent : SearchIntent),
    (length (primary_rows db intent) <= 1200)%nat
    /\ (length (fallback_candidates db intent) <= 2500)%nat
    /\ (length (fetched_rows db intent) <= 1200)%nat
    /\ (length (post_filter_items db intent) <= 1200)%nat
    /\ (length (resp_results (fst (search_on db intent))) <= 50)%nat.
Proof.
  intros db intent.
  assert (Hf : (length (fetched_rows db intent) <= 1200)%nat).
  { unfold fetched_rows. rewrite fetch_rows_cases. cbv zeta.
    destruct (negb _ && _); cbn [fst].
    - unfold fuzzy_rows. rewrite length_map, length_firstn. lia.
    - apply (run_statement_length db (fst (build_sql _))). }
  split; [apply (run_statement_length db (fst (build_sql _)))|].
  split; [apply (run_statement_length db (fst (fallback_sql _)))|].
  split; [exact Hf|]. split.
  - unfold post_filter_items. rewrite collect_items_rows, length_map.
    pose proof (filter_length_le
                  (fun r => passes_price_filter (normalized_intent intent)
                              (display r))
                  (fetched_rows db intent)). lia.
  - unfold search_on. fold (normalized_intent intent).
    destruct (fetch_rows db (normalized_intent intent) []) as [rows log].
    cbn [fst resp_results]. rewrite length_map, length_firstn.
    unfold limit_final. lia.
Qed.

(* ================================================================ *)
(** ** The alias generator *)
(* ================================================================ *)

Lemma replace_from_absent a old new s :
  Forall (fun c => c <> a) s -> replace_from (a :: old) new 0 s = s.
Proof.
  induction 1 as [|c s Hc _ IH]; [reflexivity|].
  cbn [replace_from is_prefix].
  destruct (a =? c) eqn:E; [apply N.eqb_eq in E; now subst c|].
  cbn [andb]. now rewrite IH.
Qed.

Lemma replace_from_single a new s :
  replace_from [a] new 0 s = replace_char a new s.
Proof.
  unfold replace_char. induction s as [|c s IH]; [reflexivity|].
  cbn [replace_from is_prefix length Nat.sub flat_map].
  rewrite N.eqb_sym. destruct (c =? a); cbn [andb]; rewrite IH.
  - now destruct s.
  - reflexivity.
Qed.

Lemma replace_char_removes a new s :
  Forall (fun c => c <> a) new ->
  Forall (fun c => c <> a) (replace_char a new s).
Proof.
  intros Hnew. unfold replace_char.
  induction s as [|c s IH]; [constructor|].
  cbn [flat_map]. apply Forall_app. split; [|exact IH].
  destruct (c =? a) eqn:E; [exact Hnew|].
  repeat constructor. now apply N.eqb_neq.
Qed.

Lemma replace_from_In old new k s c :
  In c (replace_from old new k s) -> In c new \/ In c s.
Proof.
  revert k. induction s as [|x s IH]; intros k H; [contradiction|].
  cbn [replace_from] in H. destruct k as [|k].
  - destruct (is_prefix old (x :: s)).
    + apply in_app_or in H. destruct H as [H | H]; [now left|].
      destruct (IH _ H); [now left | right; now right].
    + destruct H as [<- | H]; [right; now left|].
      destruct (IH _ H); [now left | right; now right].
  - destruct (IH _ H); [now left | right; now right].
Qed.

Lemma transliterate_In letters w c :
  In c (transliterate letters w) ->
  In c w \/ exists kv, In kv letters /\ In c (snd kv).
Proof.
  unfold transliterate. revert w.
  induction letters as [|kv letters IH]; intros w H; [now left|].
  cbn [fold_left] in H. apply IH in H. destruct H as [H | (kv' & Hk & H)].
  - apply replace_from_In in H. destruct H as [H | H]; [|now left].
    right. exists kv. split; [now left | exact H].
  - right. exists kv'. split; [now right | exact H].
Qed.

(** X21. The ["sh"] entry of [LETTER_MAP] is dead: the ["s"] entry comes
    first and leaves no [s] behind, so [phonetic_fa] gives the same
    result as with the entry removed, and the letter it would produce
    (U+0634) appears in a result only if the word already had it. *)
Theorem phonetic_fa_never_applies_sh :
  forall word : text,
    phonetic_fa word
    = transliterate LETTER_MAP_without_sh (brand_normalize word)
    /\ (In 0x634 (phonetic_fa word) -> In 0x634 (brand_normalize word)).
Proof.
  intros word.
  assert (Heq : phonetic_fa word
                = transliterate LETTER_MAP_without_sh (brand_normalize word)).
  { unfold phonetic_fa, transliterate.
    change LETTER_MAP_without_sh
      with (firstn 9 LETTER_MAP ++ skipn 10 LETTER_MAP).
    change LETTER_MAP
      with (firstn 9 LETTER_MAP ++ [([0x73; 0x68], [0x634])]
            ++ skipn 10 LETTER_MAP) at 1.
    rewrite !fold_left_app. f_equal.
    change (firstn 9 LETTER_MAP)
      with (firstn 8 LETTER_MAP ++ [([0x73], [0x633])]).
    rewrite fold_left_app. cbn [fold_left fst snd].
    generalize (fold_left
                  (fun out kv => str_replace (fst kv) (snd kv) out)
                  (firstn 8 LETTER_MAP) (brand_normalize word)).
    intros t. unfold str_replace at 1.
    apply replace_from_absent.
    unfold str_replace. rewrite replace_from_single.
    apply replace_char_removes. repeat constructor. discriminate. }
  split; [exact Heq|].
  rewrite Heq. intros H. apply transliterate_In in H.
  destruct H as [H | (kv & Hk & H)]; [exact H|].
  exfalso. revert Hk H.
  change LETTER_MAP_without_sh
    with (firstn 9 LETTER_MAP ++ skipn 10 LETTER_MAP).
  cbn [LETTER_MAP firstn skipn app In].
  intros Hk H.
  repeat (destruct Hk as [<- | Hk];
          [cbn [snd In] in H; destruct H as [H | []]; discriminate H|]).
  contradiction.
Qed.

(* ================================================================ *)
(** ** The two number parsers *)
(* ================================================================ *)

Lemma digits_with_underscores_reads s :
  forall acc b n,
    digits_with_underscores acc b s = Some n ->
    n = read_digits acc (filter is_digit s)
    /\ (b = true \/ nonempty (filter is_digit s) = true).
Proof.
  induction s as [|c s IH]; intros acc b n H; cbn [digits_with_underscores] in H.
  - destruct b; [|discriminate]. injection H as <-. split; [reflexivity|].
    now left.
  - unfold is_digit. cbn [filter]. fold is_digit.
    unfold is_digit at 1 3. destruct (digit_value c) as [d|] eqn:E.
    + apply IH in H. destruct H as [H _].
      split; [|now right]. unfold read_digits in *. cbn [fold_left].
      now rewrite E.
    + destruct ((c =? 0x5F) && b) eqn:Eb; [|discriminate].
      apply andb_prop in Eb. destruct Eb as [_ ->].
      apply IH in H. destruct H as [H _].
      split; [exact H | now left].
Qed.

(** X22. The two number parsers agree up to the sign: whenever the
    quantity conversion ([int()]) reads a text, [parse_price] reads the
    same text as the absolute value of that number. *)
Theorem parse_price_agrees_with_int :
  forall (s : text) (z : Z),
    parse_qty (VText s) = Some z ->
    parse_price (VText s) = Some (Z.abs z).
Proof.
  intros s z H. cbn [parse_qty] in H. unfold int_of_text in H.
  rewrite parse_price_text, <- filter_digit_int_strip.
  set (t := int_strip s) in *.
  assert (Hbody : forall (body : text) (neg : bool),
             filter is_digit t = filter is_digit body ->
             (if (length (filter is_digit body) <=? int_max_str_digits)%nat
              then match digits_with_underscores 0 false body with
                   | Some n => Some (if neg then (- n)%Z else n)
                   | None => None
                   end
              else None) = Some z ->
             (if nonempty (filter is_digit t)
              then int_of_digit_text (filter is_digit t)
              else None) = Some (Z.abs z)).
  { intros body neg Hf Hd. unfold int_of_digit_text. rewrite Hf.
    destruct (length (filter is_digit body) <=? int_max_str_digits)%nat;
      [|discriminate].
    destruct (digits_with_underscores 0 false body) as [n|] eqn:E;
      [|discriminate].
    apply digits_with_underscores_reads in E.
    destruct E as [Hn [Hb | Hne]]; [discriminate|].
    rewrite Hne. f_equal.
    change (int_of_digits (filter is_digit body))
      with (read_digits 0 (filter is_digit body)).
    rewrite <- Hn.
    assert (0 <= n)%Z.
    { rewrite Hn. unfold read_digits.
      apply int_of_digits_from_nonneg. lia. }
    injection Hd as <-. destruct neg; lia. }
  destruct t as [|c r] eqn:Et.
  - now apply (Hbody [] false).
  - destruct (c =? 0x2B) eqn:E1; [apply N.eqb_eq in E1; subst c|].
    { now apply (Hbody r false). }
    destruct (c =? 0x2D) eqn:E2; [apply N.eqb_eq in E2; subst c|].
    { now apply (Hbody r true). }
    apply (Hbody (c :: r) false); [reflexivity|].
    revert H. clear -E1 E2.
    destruct c as [|p]; [trivial|].
    repeat (destruct p as [p|p|]; try discriminate; trivial).
Qed.

(* ================================================================ *)
(** ** Searches without a query text *)
(* ================================================================ *)

Lemma collect_items_unscored intent rows :
  normalize_query (query_text intent) = [] ->
  Forall (fun d => (d_score d =? 0)%Z = true) (collect_items intent rows).
Proof.
  intros Hq. unfold collect_items. apply Forall_forall. intros d Hd.
  apply in_map_iff in Hd. destruct Hd as (d0 & <- & _).
  unfold compute_relevance_score. rewrite Hq. reflexivity.
Qed.

Lemma rank_unscored dir items :
  Forall (fun d => (d_score d =? 0)%Z = true) items ->
  rank {| sort_by := by_relevance; direction := dir |} items = items.
Proof.
  intros Hall. unfold rank. cbn [sort_by].
  set (ranked := list_sort Z.ltb d_score true items).
  assert (Hr : Forall (fun d => (d_score d =? 0)%Z = true) ranked).
  { eapply Permutation_Forall; [|exact Hall].
    symmetry. apply list_sort_perm. }
  transitivity (filter (fun d => (d_score d =? 0)%Z) ranked);
    [symmetry; exact (filter_all _ _ Hr)|].
  transitivity (filter (fun d => (d_score d =? 0)%Z) items);
    [|exact (filter_all _ _ Hall)].
  apply list_sort_stable. intros x y Hlt Hx.
  apply Z.ltb_lt in Hlt. apply Z.eqb_eq in Hx. apply Z.eqb_neq. lia.
Qed.

(** X23. A search without a query text has nothing to rank by.  When the
    normalized query text is empty and the order is by relevance, every
    score is 0 and the results are the first [limit_final] rows that
    passed the price filter, in the order in which they were retrieved. *)
Theorem empty_query_keeps_retrieval_order :
  forall (db : list Row) (intent : SearchIntent),
    normalize_query (query_text intent) = [] ->
    sort_by (sort_spec intent) = by_relevance ->
    let results := resp_results (fst (search_on db intent)) in
    results
    = map result_of
          (firstn (Z.to_nat (limit_final intent))
                  (post_filter_items db intent))
    /\ Forall (fun res => res_score res = 0%Z) results.
Proof.
  intros db intent Hq Hby results.
  assert (Hq' : normalize_query (query_text (normalized_intent intent)) = []).
  { unfold normalized_intent. cbn [set_query_text query_text].
    rewrite Hq. reflexivity. }
  assert (Hres : results
                 = map result_of
                       (firstn (Z.to_nat (limit_final intent))
                               (post_filter_items db intent))).
  { subst results. unfold post_filter_items, fetched_rows, search_on.
    fold (normalized_intent intent).
    destruct (fetch_rows db (normalized_intent intent) []) as [rows log].
    cbn [fst resp_results]. f_equal. f_equal.
    pose proof (collect_items_unscored _ rows Hq') as Hall.
    unfold normalized_intent at 1. cbn [set_query_text sort_spec].
    destruct (sort_spec intent) as [by_what dir]. cbn [sort_by] in Hby.
    subst by_what. now apply rank_unscored. }
  split; [exact Hres|].
  rewrite Hres. apply Forall_forall. intros res Hin.
  apply in_map_iff in Hin. destruct Hin as (d & <- & Hd).
  apply firstn_In in Hd.
  pose proof (collect_items_unscored _ (fetched_rows db intent) Hq') as Hall.
  rewrite Forall_forall in Hall. apply Hall in Hd.
  cbn [result_of res_score]. now apply Z.eqb_eq.
Qed.

End Engine.

(** C2, the claim as stated fails: the field "12,500 - 13,000" has the
    leading digit run 12500, but [parse_price] reads 1250013000. *)
Lemma parse_price_joins_digit_runs :
  parse_price (VText (txt "12,500 - 13,000")) = Some 1250013000%Z
  /\ spec_parse_price (VText (txt "12,500 - 13,000")) = Some 12500%Z
  /\ parse_price (VText (txt "12,500 - 13,000"))
     <> spec_parse_price (VText (txt "12,500 - 13,000")).
Proof.
  repeat split; try (vm_compute; reflexivity).
  vm_compute. discriminate.
Qed.

(* ================================================================== *)
(** ** Concrete runs *)
(* ================================================================== *)

Lemma prefix_ratio_empty :
  forall a : text, a <> [] -> prefix_ratio a [] = 0%float.
Proof. intros [|x a] H; [now elim H | reflexivity]. Qed.

(** C1, the failing run: two books, the second without price and without
    quantity.  Sorted by price or by quantity in descending order (the
    default direction) the book without a value comes first; in ascending
    order it comes last. *)
Lemma descending_order_puts_missing_values_first :
  map res_price
      (resp_results
         (fst (search_on ascii_lower [] prefix_ratio prefix_ratio [] []
                         two_books (sorted_intent by_price desc))))
  = [None; Some 5%Z]
  /\ map res_qty
         (resp_results
            (fst (search_on ascii_lower [] prefix_ratio prefix_ratio [] []
                            two_books (sorted_intent by_qty desc))))
     = [None; Some 3%Z]
  /\ map res_price
         (resp_results
            (fst (search_on ascii_lower [] prefix_ratio prefix_ratio [] []
                            two_books (sorted_intent by_price asc))))
     = [Some 5%Z; None]
  /\ map res_qty
         (resp_results
            (fst (search_on ascii_lower [] prefix_ratio prefix_ratio [] []
                            two_books (sorted_intent by_qty asc))))
     = [Some 3%Z; None].
Proof. repeat split; vm_compute; reflexivity. Qed.

(** C3, the claim as stated fails: a stored groupfamily field holding a
    lone ZWNJ passes [TRIM(...) != ""], and its display copy is empty. *)
Lemma uploaded_only_row_with_empty_groupfamily :
  uploaded_only default_intent = true
  /\ map res_groupfamily
         (resp_results
            (fst (search_on ascii_lower [] prefix_ratio prefix_ratio [] []
                            zwnj_tagged default_intent)))
     = [[]].
Proof. split; vm_compute; reflexivity. Qed.

(** C3, an instance: the rows found for the typo intent on the shelf. *)
Lemma uploaded_only_rows_on_the_shelf :
  uploaded_only typo_intent = true
  /\ Forall (fun res =>
               exists r g,
                 In r shelf
                 /\ r_groupfamily r = Some g
                 /\ sqlite_trim g <> []
                 /\ res_groupfamily res = normalize_persian g
                 /\ (existsb visible g = true -> res_groupfamily res <> []))
            (resp_results
               (fst (search_on ascii_lower [] prefix_ratio prefix_ratio [] []
                               shelf typo_intent))).
Proof.
  split; [reflexivity|].
  apply (uploaded_only_rows_are_tagged ascii_lower [] prefix_ratio
           prefix_ratio [] [] shelf typo_intent eq_refl).
Defined.

(** C4, an instance: "harry poter" matches no name exactly, so the
    fallback fetch runs and keeps "harry potter" (18/23) but not "harry"
    (10/16). *)
Lemma fallback_runs_on_a_typo :
  primary_rows ascii_lower [] shelf typo_intent = []
  /\ name_seed (normalized_intent typo_intent) = txt "harry poter"
  /\ snd (search_on ascii_lower [] prefix_ratio prefix_ratio [] []
                    shelf typo_intent)
     = [build_sql ascii_lower [] (normalized_intent typo_intent);
        fallback_sql ascii_lower (normalized_intent typo_intent)]
  /\ map r_name (fetched_rows ascii_lower [] prefix_ratio shelf typo_intent)
     = [Some (txt "harry potter")].
Proof.
  pose proof (fuzzy_fallback_stage ascii_lower [] prefix_ratio
                prefix_ratio_empty prefix_ratio [] [] shelf typo_intent) as T.
  cbv zeta in T. destruct T as (_ & Hrun & _ & _ & Hwhen & _).
  assert (Hp : primary_rows ascii_lower [] shelf typo_intent = [])
    by (vm_compute; reflexivity).
  assert (Hs : name_seed (normalized_intent typo_intent) <> [])
    by (vm_compute; discriminate).
  split; [exact Hp|]. split; [vm_compute; reflexivity|].
  split; [apply Hrun; split; assumption|].
  destruct (Hwhen (conj Hp Hs)) as (_ & _ & _ & Hf & _).
  rewrite Hf. vm_compute. reflexivity.
Defined.

(** C5, an instance: category "S" with the query "pen" in Persian. *)
Lemma pen_query_widens_stationery :
  category_clauses ascii_lower pen_intent
  = ([InParams COL_CAT 2], [txt "s"; txt "l"])
  /\ matches_categories (category_clauses ascii_lower pen_intent)
                        [txt "s"; txt "l"].
Proof.
  destruct (category_auto_expand ascii_lower [] pen_intent) as [H _].
  destruct (H eq_refl eq_refl) as [Hk _].
  exact (Hk eq_refl).
Defined.

(** C8, an instance: in a map with disjoint groups the canonical name
    and its alias expand to the same group. *)
Lemma disjoint_groups_expand_alike :
  expand_brand_terms ascii_lower disjoint_aliases (txt "faber castell")
  = [txt "faber castell"; faber_alias]
  /\ expand_brand_terms ascii_lower disjoint_aliases faber_alias
     = [txt "faber castell"; faber_alias].
Proof.
  assert (Hpre : forall x, forall e,
             In e [(txt "pilot", [[0x67E; 0x6CC; 0x644; 0x648; 0x62A]])] ->
             In x [txt "faber castell"; faber_alias] ->
             entry_matches ascii_lower (norm_lower ascii_lower x) e = false).
  { intros x e [<- | []] [<- | [<- | []]]; vm_compute; reflexivity. }
  destruct (alias_lookup_first_entry_wins ascii_lower disjoint_aliases
              [(txt "pilot", [[0x67E; 0x6CC; 0x644; 0x648; 0x62A]])] []
              (txt "faber castell") [faber_alias] faber_alias
              eq_refl (or_introl eq_refl)
              (fun e He => Hpre _ e He (or_introl eq_refl))
              (fun e He => Hpre _ e He (or_intror (or_introl eq_refl))))
    as (Hk & Ha & _).
  split; [exact Hk | exact Ha].
Defined.

(** C8, the claim as stated fails: "faber" is a canonical brand of the
    map with the alias list [faber_alias], yet the alias expands to the
    group of "faber castell", which comes first and shares it; the two
    publisher filters compile to different OR groups. *)
Lemma shared_alias_breaks_symmetry :
  In (txt "faber", [faber_alias]) shared_aliases
  /\ expand_brand_terms ascii_lower shared_aliases (txt "faber")
     = [txt "faber"; faber_alias]
  /\ expand_brand_terms ascii_lower shared_aliases faber_alias
     = [txt "faber castell"; faber_alias]
  /\ apply_text_filter ascii_lower shared_aliases COL_PUBLISHER
       {| include := [txt "faber"]; exclude := [] |}
     <> apply_text_filter ascii_lower shared_aliases COL_PUBLISHER
          {| include := [faber_alias]; exclude := [] |}.
Proof.
  split; [right; left; reflexivity|].
  split; [vm_compute; reflexivity|].
  split; [vm_compute; reflexivity|].
  vm_compute. discriminate.
Qed.

(** X4, an instance: a title written with Arabic kaf and tatweel. *)
Lemma api_normalizer_absorbs_dbmaker_on_a_title :
  normalize_persian
    (dbmaker_normalize_persian [0x643; 0x62A; 0x640; 0x627; 0x628])
  = normalize_persian [0x643; 0x62A; 0x640; 0x627; 0x628].
Proof.
  apply api_normalizer_absorbs_dbmaker.
  repeat constructor.
Defined.

(** X6, an instance: a minus sign in front of "500". *)
Lemma parse_price_drops_a_minus_sign :
  parse_price (VText (txt "-500")) = parse_price (VText (txt "500")).
Proof.
  apply (parse_price_ignores_non_digits [] (txt "500") 0x2D).
  vm_compute. reflexivity.
Defined.

(** X9 on the shelf: the row found for "harry" and "potter" holds
    "potter" in its name. *)
Lemma both_terms_are_found_on_the_shelf :
  exists term s,
    In term (include_terms ascii_lower [] COL_NAME (txt "potter"))
    /\ field potter_row COL_NAME = Some s
    /\ sql_like (like_pattern (normalize_persian term)) s = true.
Proof.
  apply (include_terms_are_all_required ascii_lower [] prefix_ratio []
           shelf two_terms_intent potter_row COL_NAME
           {| include := [txt "harry"; txt "potter"]; exclude := [] |}
           (txt "potter")).
  - vm_compute. left. reflexivity.
  - vm_compute. left. reflexivity.
  - right. left. reflexivity.
  - vm_compute. discriminate.
Defined.

(** X10 on the shelf: the row found for "harry" without "potter" does not
    hold "potter" in its name. *)
Lemma excluded_term_is_absent_on_the_shelf :
  match field harry_row COL_NAME with
  | Some s => sql_like (like_pattern (normalize_persian (txt "potter"))) s
              = false
  | None => True
  end.
Proof.
  apply (exclude_terms_never_match ascii_lower [] prefix_ratio []
           shelf exclude_intent harry_row COL_NAME [txt "potter"]
           (txt "potter")).
  - vm_compute. left. reflexivity.
  - left. exists {| include := [txt "harry"]; exclude := [txt "potter"] |}.
    split; [vm_compute; left; reflexivity | reflexivity].
  - left. reflexivity.
  - vm_compute. discriminate.
Defined.

(** X11 on the shelf: the row found for the tags holds "novel" and one of
    "fantasy" and "poetry". *)
Lemma tags_are_honoured_on_the_shelf :
  In potter_row (primary_rows ascii_lower [] shelf tags_intent)
  /\ exists t s,
       In t [txt "fantasy"; txt "poetry"]
       /\ r_groupfamily potter_row = Some s
       /\ sql_like (like_pattern t) s = true.
Proof.
  assert (Hin : In potter_row (primary_rows ascii_lower [] shelf tags_intent)).
  { vm_compute. left. reflexivity. }
  split; [exact Hin|].
  destruct (groupfamily_tags_are_honoured ascii_lower [] prefix_ratio []
              shelf tags_intent potter_row Hin) as [_ Hany].
  apply Hany. vm_compute. discriminate.
Defined.

(** X12 on the shelf: a row fetched for category "B" is in category "b". *)
Lemma category_is_honoured_on_the_shelf :
  exists c,
    r_category_code potter_row = Some c
    /\ In c (widened_cats ascii_lower
               (normalized_intent
                  (query_intent (CatStr (txt "B")) (txt "potter")))).
Proof.
  apply (category_is_honoured_on_both_paths ascii_lower [] prefix_ratio
           prefix_ratio [] shelf
           (query_intent (CatStr (txt "B")) (txt "potter")) potter_row).
  - reflexivity.
  - vm_compute. discriminate.
  - vm_compute. right. left. reflexivity.
Defined.

(** X13 on the shelf: the row found for the query "Potter?" holds the
    normalized query in one of the searched columns. *)
Lemma free_text_is_found_on_the_shelf :
  exists col s,
    In col or_cols
    /\ field potter_row col = Some s
    /\ sql_like (like_pattern (normalize_query (txt "Potter?"))) s = true.
Proof.
  apply (free_text_rows_contain_the_query ascii_lower [] prefix_ratio []
           shelf (query_intent CatNone (txt "Potter?")) potter_row).
  - reflexivity.
  - vm_compute. discriminate.
  - vm_compute. left. reflexivity.
Defined.

(** X14 on an intent whose category is the empty text. *)
Lemma empty_category_drops_the_query :
  build_sql ascii_lower [] (set_query_text (query_intent (CatStr []) [])
                                           (txt "potter"))
  = build_sql ascii_lower [] (query_intent (CatStr []) [])
  /\ free_text_clauses (query_intent (CatStr []) []) = ([], [])
  /\ category_clauses ascii_lower (query_intent (CatStr []) []) = ([], []).
Proof.
  apply (empty_category_disables_free_text ascii_lower []
           (query_intent (CatStr []) []) (txt "potter")).
  - discriminate.
  - reflexivity.
Defined.

(** X22 on a quantity written with a sign and an underscore. *)
Lemma parse_price_reads_a_signed_quantity :
  parse_qty (VText (txt " -1_000 ")) = Some (-1000)%Z
  /\ parse_price (VText (txt " -1_000 ")) = Some 1000%Z.
Proof.
  assert (H : parse_qty (VText (txt " -1_000 ")) = Some (-1000)%Z)
    by (vm_compute; reflexivity).
  split; [exact H|].
  exact (parse_price_agrees_with_int (txt " -1_000 ") (-1000)%Z H).
Defined.

(** X23 on the shelf: a search by name filters only. *)
Lemma filter_only_search_on_the_shelf :
  resp_results
    (fst (search_on ascii_lower [] prefix_ratio prefix_ratio [] []
                    shelf two_terms_intent))
  = map result_of
        (firstn (Z.to_nat (limit_final two_terms_intent))
                (post_filter_items ascii_lower [] prefix_ratio prefix_ratio
                                   shelf two_terms_intent)).
Proof.
  apply (empty_query_keeps_retrieval_order ascii_lower [] prefix_ratio
           prefix_ratio [] [] shelf two_terms_intent);
    reflexivity.
Defined.
